(** * Trajectory analytics and noise policies of mushroom

    A shallow embedding of
      - [mushroom/utils/dataset.py]       (parse_dataset, select_episodes,
        select_samples, compute_J, compute_scores, max_QA) and
      - [mushroom_rl/policy/noise_policy.py] (OrnsteinUhlenbeckPolicy,
        ClippedGaussianPolicy),
    together with the properties stated about them.

    Conventions.
      - A Python call either returns a value or raises: [outcome A].
      - Numbers (Python floats, numpy and torch scalars) are the elements of
        an arbitrary type [num] carrying the arithmetic the code uses
        ([Numeric]); the few algebraic facts a proof needs are collected in
        [NumericLaws] and asked for only where they are used.  [Z] is an
        instance with exact arithmetic, the binary64 floats are another,
        with infinities, NaN and a power that can overflow; both run the
        definitions.
      - Random draws (numpy's and torch's generators) are explicit
        arguments.
      - A policy is the record of the fields its constructor stores; the
        Cholesky factor is the stored one.  The weight accessors, which
        hand over to the approximator, and persistence are left out. *)

From Stdlib Require Import ZArith Lia.
From Stdlib Require Floats.PrimFloat.
From stdpp Require Import base list.

Open Scope Z_scope.
Open Scope nat_scope.

(** ** Outcomes of Python calls *)

Inductive py_error : Set :=
  | AssertionError
  | IndexError
  | ValueError
  | TypeError
  | UnboundLocalError
  | RuntimeError
  | OverflowError
  | NotImplementedError.

Inductive outcome (A : Type) : Type :=
  | Ret (a : A)
  | Raise (e : py_error).
Arguments Ret {A} a.
Arguments Raise {A} e.

Definition obind {A B : Type} (m : outcome A) (k : A -> outcome B) : outcome B :=
  match m with
  | Ret a => k a
  | Raise e => Raise e
  end.

Notation "'let*' x ':=' m 'in' k" := (obind m (fun x => k))
  (at level 10, x pattern, m at level 100, k at level 200).

Definition returns {A : Type} (m : outcome A) : Prop := exists a, m = Ret a.

(** ** Numbers *)

Class Numeric (num : Type) : Type := {
  f0 : num;                       (* 0, 0. *)
  f1 : num;                       (* 1, 1. *)
  fadd : num -> num -> num;       (* x + y *)
  fsub : num -> num -> num;       (* x - y *)
  fmul : num -> num -> num;       (* x * y *)
  fdiv : num -> num -> num;       (* x / y *)
  fpow : num -> nat -> outcome num;
                                  (* x ** k, k a non-negative int; a float
                                     power that overflows raises *)
  of_nat : nat -> num;            (* float(k) *)
  fle : num -> num -> bool;       (* x <= y *)
  feq : num -> num -> bool;       (* x == y *)
  fisnan : num -> bool            (* isnan(x) *)
}.

(** The facts about numbers the proofs draw on: exact arithmetic on a
    totally ordered set, without NaN and without overflow of the powers of
    1.  The integers have them all; the floats do not (NaN, the infinities
    and the two zeros stand against them).  A theorem that needs only a few
    of them asks for those few. *)
Class NumericLaws (num : Type) `{Numeric num} : Prop := {
  fmul_1_l : forall x, fmul f1 x = x;
  fmul_1_r : forall x, fmul x f1 = x;
  fmul_0_r : forall x, fmul x f0 = f0;
  fpow_1_l : forall k, fpow f1 k = Ret f1;
  fsub_1_1 : fsub f1 f1 = f0;
  fsub_1_0 : fsub f1 f0 = f1;
  f1_neq_f0 : f1 <> f0 :> num;
  fle_total : forall x y, fle x y = true \/ fle y x = true;
  fle_trans : forall x y z, fle x y = true -> fle y z = true -> fle x z = true;
  fle_antisym : forall x y, fle x y = true -> fle y x = true -> x = y;
  feq_spec : forall x y, feq x y = true <-> x = y;
  fisnan_false : forall x, fisnan x = false
}.

#[export] Instance Z_numeric : Numeric Z := {
  f0 := 0%Z;
  f1 := 1%Z;
  fadd := Z.add;
  fsub := Z.sub;
  fmul := Z.mul;
  fdiv := Z.div;
  fpow := fun x k => Ret (Z.pow x (Z.of_nat k));
  of_nat := Z.of_nat;
  fle := Z.leb;
  feq := Z.eqb;
  fisnan := fun _ => false
}.

(** The binary64 floats, with Python's [**]: a finite base whose power
    leaves the range raises OverflowError, an infinite one has infinite
    powers.  The power is taken by repeated multiplication, rounding after
    each product: that is the correctly rounded power wherever the products
    are exact, as for the powers of two used below.  [float(k)] is taken by
    repeated addition of 1. *)
Module Binary64.
Import PrimFloat.

Fixpoint product (x : float) (k : nat) : float :=
  match k with
  | O => 1%float
  | S k' => (x * product x k')%float
  end.

Definition pow (x : float) (k : nat) : outcome float :=
  let p := product x k in
  if is_infinity p && negb (is_infinity x) then Raise OverflowError else Ret p.

Fixpoint count (k : nat) : float :=
  match k with
  | O => 0%float
  | S k' => (count k' + 1)%float
  end.

End Binary64.

#[export] Instance binary64 : Numeric PrimFloat.float := {
  f0 := PrimFloat.zero;
  f1 := PrimFloat.one;
  fadd := PrimFloat.add;
  fsub := PrimFloat.sub;
  fmul := PrimFloat.mul;
  fdiv := PrimFloat.div;
  fpow := Binary64.pow;
  of_nat := Binary64.count;
  fle := PrimFloat.leb;
  feq := PrimFloat.eqb;
  fisnan := PrimFloat.is_nan
}.

Section NumericBasics.
Context {num : Type} `{Numeric num}.

(** float(b) for a Python bool. *)
Definition of_bool (b : bool) : num := if b then f1 else f0.

(** bool(x) for a number: x != 0. *)
Definition truthy (x : num) : bool := negb (feq x f0).

Definition fmax (x y : num) : num := if fle y x then x else y.
Definition fmin (x y : num) : num := if fle x y then x else y.
End NumericBasics.

(** ** [for i in xrange(n)] *)

Definition for_range {S : Type} (n : nat) (body : nat -> S -> S) (init : S) : S :=
  fold_left (fun st i => body i st) (seq 0 n) init.

(** ** The dataset utilities ([mushroom/utils/dataset.py]) *)

Module Dataset.
Section WithNumbers.
Context {num : Type} `{Numeric num}.

(** An array value of a transition (state, action, next state): its shape
    and its entries in row-major order. *)
Record tensor : Type := { shape : list nat; data : list num }.

(** One step of interaction,
    [(state, action, reward, next_state, absorbing, last)]. *)
Record transition : Type := {
  state : tensor;
  action : tensor;
  reward : num;
  next_state : tensor;
  absorbing : bool;
  last : bool
}.

(** *** compute_J *)

(** The loop state of [compute_J]: [js], [j], [episode_steps]. *)
Definition J_state : Type := list num * num * nat.

(** One round of the loop; the power may raise. *)
Definition compute_J_step (gamma : num) (st : J_state) (tr : transition)
    : outcome J_state :=
  let '(js, j, episode_steps) := st in
  let* power := fpow gamma episode_steps in
  let j := fadd j (fmul power (reward tr)) in
  let episode_steps := episode_steps + 1 in
  Ret (if last tr then (js ++ [j], f0, 0) else (js, j, episode_steps)).

(** The loop, an exception ending it. *)
Definition compute_J_round (gamma : num) (st : outcome J_state) (tr : transition)
    : outcome J_state :=
  let* st := st in compute_J_step gamma st tr.

Definition compute_J (dataset : list transition) (gamma : num) : outcome (list num) :=
  let body i st :=
    match dataset !! i with
    | Some tr => compute_J_round gamma st tr
    | None => st                (* dataset[i] with i < len(dataset): not reached *)
    end in
  let* st := for_range (length dataset) body (Ret ([], f0, 0)) in
  Ret st.1.1.

(** *** compute_scores *)

(** [np.minimum], [np.maximum] on two entries: a NaN wins. *)
Definition np_minimum (a b : num) : num := if fle a b || fisnan a then a else b.
Definition np_maximum (a b : num) : num := if fle b a || fisnan a then a else b.

(** [np.min], [np.max] of a vector: the reduction by the above. *)
Definition np_min (l : list num) : outcome num :=
  match l with
  | [] => Raise ValueError
  | x :: xs => Ret (fold_left np_minimum xs x)
  end.

Definition np_max (l : list num) : outcome num :=
  match l with
  | [] => Raise ValueError
  | x :: xs => Ret (fold_left np_maximum xs x)
  end.

Definition np_sum (l : list num) : num := fold_left fadd l f0.

Definition np_mean (l : list num) : outcome num :=
  Ret (fdiv (np_sum l) (of_nat (length l))).

(** The loop state of [compute_scores]: [scores], [score],
    [episode_steps], [n_episodes]. *)
Definition scores_state : Type := list num * num * nat * nat.

Definition compute_scores_step (st : scores_state) (tr : transition) : scores_state :=
  let '(scores, score, episode_steps, n_episodes) := st in
  let score := fadd score (reward tr) in
  let episode_steps := episode_steps + 1 in
  if last tr then (scores ++ [score], f0, 0, n_episodes + 1)
  else (scores, score, episode_steps, n_episodes).

Definition compute_scores (dataset : list transition) : outcome (num * num * num * nat) :=
  let body i st :=
    match dataset !! i with
    | Some tr => compute_scores_step st tr
    | None => st
    end in
  let '(scores, _, _, n_episodes) := for_range (length dataset) body ([], f0, 0, 0) in
  if 0 <? length scores then
    let* mn := np_min scores in
    let* mx := np_max scores in
    let* me := np_mean scores in
    Ret (mn, mx, me, n_episodes)
  else Ret (f0, f0, f0, 0).

(** *** parse_dataset *)

(** What numpy does when a value is stored into a row of another shape
    (broadcast it, or raise) is numpy's business: a parameter. *)
Variable np_broadcast : list nat -> tensor -> outcome tensor.

Definition np_ones (shp : list nat) : tensor :=
  {| shape := shp; data := replicate (foldr Nat.mul 1 shp) f1 |}.

(** [arr[i, ...] = v] on an array whose rows have shape [shp]. *)
Definition set_row (shp : list nat) (i : nat) (v : tensor) (arr : list tensor)
    : outcome (list tensor) :=
  let* v := (if decide (shape v = shp) then Ret v else np_broadcast shp v) in
  Ret (<[i := v]> arr).

(** The six arrays: state, action, reward, next_state, absorbing, last. *)
Definition parsed : Type :=
  list tensor * list tensor * list num * list tensor * list num * list num.

Definition parse_dataset_step (dataset : list transition) (shp_s shp_a shp_n : list nat)
    (i : nat) (st : outcome parsed) : outcome parsed :=
  let* (state_, action_, reward_, next_state_, absorbing_, last_) := st in
  match dataset !! i with
  | None => Raise IndexError
  | Some tr =>
      let* state_ := set_row shp_s i (state tr) state_ in
      let* action_ := set_row shp_a i (action tr) action_ in
      let reward_ := <[i := reward tr]> reward_ in
      let* next_state_ := set_row shp_n i (next_state tr) next_state_ in
      let absorbing_ := <[i := of_bool (absorbing tr)]> absorbing_ in
      let last_ := <[i := of_bool (last tr)]> last_ in
      Ret (state_, action_, reward_, next_state_, absorbing_, last_)
  end.

Definition parse_dataset (dataset : list transition) : outcome parsed :=
  match dataset with
  | [] => Raise AssertionError
  | tr0 :: _ =>
      let n := length dataset in
      let shp_s := shape (state tr0) in
      let shp_a := shape (action tr0) in
      let shp_n := shape (next_state tr0) in
      for_range n (parse_dataset_step dataset shp_s shp_a shp_n)
        (Ret (replicate n (np_ones shp_s), replicate n (np_ones shp_a),
              replicate n f1, replicate n (np_ones shp_n),
              replicate n f1, replicate n f1))
  end.

(** *** select_episodes, select_samples *)

(** Entries of the 2-D array [np.array(dataset)]. *)
Inductive cell : Type :=
  | CArr (t : tensor)
  | CNum (x : num)
  | CBool (b : bool).

(** A 2-D array, row by row. *)
Definition ndarray : Type := list (list cell).

Definition row_of (tr : transition) : list cell :=
  [CArr (state tr); CArr (action tr); CNum (reward tr);
   CArr (next_state tr); CBool (absorbing tr); CBool (last tr)].

Definition np_array (dataset : list transition) : ndarray := map row_of dataset.

(** [a.shape[0]] and [a.size]. *)
Definition n_rows (a : ndarray) : nat := length a.
Definition np_size (a : ndarray) : nat := length (concat a).

(** [np.argwhere(mask).ravel()]: the positions that hold True, ascending. *)
Fixpoint argwhere_from (i : nat) (mask : list bool) : list nat :=
  match mask with
  | [] => []
  | b :: mask' => if b then i :: argwhere_from (S i) mask' else argwhere_from (S i) mask'
  end.

Definition np_argwhere (mask : list bool) : list nat := argwhere_from 0 mask.

(** What the two selectors return: the sub-array, or its parse. *)
Inductive selection : Type :=
  | Sub (a : ndarray)
  | Parsed (p : parsed).

Definition select_episodes (dataset : list transition) (n_episodes : Z) (parse : bool)
    : outcome selection :=
  if (n_episodes <? 0)%Z then Raise AssertionError
  else if (n_episodes =? 0)%Z then Ret (Sub [[]])
  else
    match dataset with
    | [] => Raise IndexError      (* np.array([]) has one axis: [:, -1] fails *)
    | _ =>
        (* dataset[:, -1] == 1 : True == 1 *)
        let last_idxs := np_argwhere (map last dataset) in
        match last_idxs !! Z.to_nat (n_episodes - 1) with
        | None => Raise IndexError
        | Some k =>
            let sub_dataset := take (k + 1) dataset in
            if parse then let* p := parse_dataset sub_dataset in Ret (Parsed p)
            else Ret (Sub (np_array sub_dataset))
        end
    end.

(** [idxs] is the draw [np.random.randint(dataset.shape[0], size=n_samples)]. *)
Definition select_samples (dataset : list transition) (n_samples : Z) (parse : bool)
    (idxs : list nat) : outcome selection :=
  if (n_samples <? 0)%Z then Raise AssertionError
  else if (n_samples =? 0)%Z then Ret (Sub [[]])
  else
    match dataset with
    | [] => Raise ValueError      (* randint(0, ...) *)
    | _ =>
        let* sub_dataset :=
          foldr (fun i acc =>
                   match dataset !! i with
                   | Some tr => let* rest := acc in Ret (tr :: rest)
                   | None => Raise IndexError
                   end) (Ret []) idxs in
        if parse then let* p := parse_dataset sub_dataset in Ret (Parsed p)
        else Ret (Sub (np_array sub_dataset))
    end.

(** *** max_QA *)

Record approximator (S : Type) : Type := {
  predict_all : S -> list (list num)
}.
Arguments predict_all {S} _ _.

(** [np.any(absorbing)] *)
Definition np_any (v : list num) : bool := existsb truthy v.

(** [q *= col] for a column [col] of shape (m, 1), in place. *)
Definition imul_column (q : list (list num)) (col : list num) : outcome (list (list num)) :=
  if decide (length col = length q) then
    Ret (zip_with (fun row c => map (fun x => fmul x c) row) q col)
  else
    match col with
    | [c] => Ret (map (fun row => map (fun x => fmul x c) row) q)
    | _ => Raise ValueError
    end.

Fixpoint omap_list {A B : Type} (f : A -> outcome B) (l : list A) : outcome (list B) :=
  match l with
  | [] => Ret []
  | x :: l' => let* y := f x in let* ys := omap_list f l' in Ret (y :: ys)
  end.

(** [np.argmax] of a vector: one scan that moves on to an entry that is not
    [<=] the best so far and stops at the first NaN, which counts as
    maximal. *)
Fixpoint argmax_scan (best_i : nat) (best : num) (i : nat) (l : list num) : nat :=
  match l with
  | [] => best_i
  | x :: l' =>
      if fle x best then argmax_scan best_i best (S i) l'
      else if fisnan x then i
      else argmax_scan i x (S i) l'
  end.

Definition np_argmax (l : list num) : outcome nat :=
  match l with
  | [] => Raise ValueError
  | x :: xs => if fisnan x then Ret 0 else Ret (argmax_scan 0 x 1 xs)
  end.

(** [np.random.choice(a)], [draw] being the position the generator picks. *)
Definition np_random_choice {A : Type} (draw : nat) (a : list A) : outcome A :=
  match a with
  | [] => Raise ValueError
  | _ => match a !! draw with
         | Some x => Ret x
         | None => Raise IndexError      (* the generator stays below len(a) *)
         end
  end.

(** [v == w] with [w] of shape (1,) or of the shape of [v]. *)
Definition eq_broadcast (v w : list num) : outcome (list bool) :=
  match w with
  | [m] => Ret (map (fun x => feq x m) v)
  | _ => if decide (length v = length w) then Ret (zip_with feq v w)
         else match v with
              | [x] => Ret (map (fun y => feq x y) w)
              | _ => Raise ValueError
              end
  end.

Definition max_QA {S : Type} (states : S) (absorbing_ : list num)
    (approx : approximator S) (draw : nat) : outcome (list num * list (list nat)) :=
  let q := predict_all approx states in
  let* q := (if np_any absorbing_
             then imul_column q (map (fun a => fsub f1 a) absorbing_)
             else Ret q) in
  let* max_q := omap_list np_max q in
  let* max_a :=
    (if 1 <? length q then omap_list np_argmax q
     else
       match q !! 0 with
       | None => Raise IndexError
       | Some q0 =>
           let* mask := eq_broadcast q0 max_q in
           let* a := np_random_choice draw (np_argwhere mask) in
           Ret [a]
       end) in
  Ret (max_q, map (fun a => [a]) max_a).

(** *** Episodes, as the documentation speaks of them *)

(** The completed episodes (each a maximal run closed by a [last]
    transition) and the unfinished tail, [cur] being the run read so far. *)
Fixpoint split_episodes (cur : list transition) (dataset : list transition)
    : list (list transition) * list transition :=
  match dataset with
  | [] => ([], cur)
  | tr :: rest =>
      if last tr then
        let '(eps, tl) := split_episodes [] rest in ((cur ++ [tr]) :: eps, tl)
      else split_episodes (cur ++ [tr]) rest
  end.

Definition episodes (dataset : list transition) : list (list transition) :=
  fst (split_episodes [] dataset).

Definition trailing (dataset : list transition) : list transition :=
  snd (split_episodes [] dataset).

(** [acc + gamma^t * r_t + gamma^(t+1) * r_(t+1) + ...], summed left to
    right; there is no sum when one of the powers overflows. *)
Fixpoint discounted_from (gamma : num) (t : nat) (acc : num) (ep : list transition)
    : outcome num :=
  match ep with
  | [] => Ret acc
  | tr :: ep' =>
      let* power := fpow gamma t in
      discounted_from gamma (S t) (fadd acc (fmul power (reward tr))) ep'
  end.

(** [sum_{t=0}^{T-1} gamma^t * reward_t] of one run of transitions. *)
Definition discounted_return (gamma : num) (ep : list transition) : outcome num :=
  discounted_from gamma 0 f0 ep.

(** The returns of the completed episodes, the powers of the unfinished
    tail being computed as well. *)
Definition episode_returns (gamma : num) (dataset : list transition)
    : outcome (list num) :=
  let* js := omap_list (discounted_return gamma) (episodes dataset) in
  let* _ := discounted_return gamma (trailing dataset) in
  Ret js.

(** (min, max, mean, length) of a list of returns. *)
Definition summary (js : list num) : outcome (num * num * num * nat) :=
  let* mn := np_min js in
  let* mx := np_max js in
  let* me := np_mean js in
  Ret (mn, mx, me, length js).

(** An episode is a run of non-final transitions closed by a final one. *)
Definition is_episode (ep : list transition) : Prop :=
  exists pre tr, ep = pre ++ [tr] /\ last tr = true /\
                 Forall (fun x => last x = false) pre.

(** *** Maxima and their positions *)

(** [m] is the largest entry of [row]. *)
Definition is_max (row : list num) (m : num) : Prop :=
  In m row /\ Forall (fun x => fle x m = true) row.

(** [i] is a position of the largest entry of [row]. *)
Definition is_argmax (row : list num) (i : nat) : Prop :=
  exists m, row !! i = Some m /\ is_max row m.

(** [i] is the first such position. *)
Definition first_argmax (row : list num) (i : nat) : Prop :=
  is_argmax row i /\ forall j, j < i -> ~ is_argmax row j.

(** The positions of the entries that no entry of [row] exceeds,
    ascending. *)
Definition tied_maxima (row : list num) : list nat :=
  np_argwhere (map (fun x => forallb (fun y => fle y x) row) row).

(** The Q-matrix with the rows of the flagged states set to zero. *)
Definition zero_absorbing (q : list (list num)) (flags : list bool) : list (list num) :=
  zip_with (fun row (b : bool) => if b then map (fun _ => f0) row else row) q flags.

(** *** Reading the six arrays back *)

(** The shapes of [tr] are those of [tr0]. *)
Definition same_shapes (tr0 tr : transition) : Prop :=
  shape (state tr) = shape (state tr0)
  /\ shape (action tr) = shape (action tr0)
  /\ shape (next_state tr) = shape (next_state tr0).

(** The six columns of a dataset. *)
Definition columns (dataset : list transition) : parsed :=
  (map state dataset, map action dataset, map reward dataset,
   map next_state dataset,
   map (fun tr => of_bool (absorbing tr)) dataset,
   map (fun tr => of_bool (last tr)) dataset).

(** The transition read back from the [i]-th rows of six arrays, a flag
    stored as 1. or 0. being read as a bool. *)
Definition reassemble (p : parsed) (i : nat) : option transition :=
  let '(state_, action_, reward_, next_state_, absorbing_, last_) := p in
  s ← state_ !! i;
  a ← action_ !! i;
  r ← reward_ !! i;
  ns ← next_state_ !! i;
  ab ← absorbing_ !! i;
  l ← last_ !! i;
  Some {| state := s; action := a; reward := r; next_state := ns;
          absorbing := truthy ab; last := truthy l |}.

End WithNumbers.
Arguments predict_all {num S} _ _.
End Dataset.

(** ** The noise policies ([mushroom_rl/policy/noise_policy.py]) *)

(** Tensor arithmetic as torch provides it; the policies below only combine
    these operations. *)
Class TensorOps (num tensor : Type) : Type := {
  tadd : tensor -> tensor -> tensor;      (* a + b *)
  tsub : tensor -> tensor -> tensor;      (* a - b *)
  tmul : tensor -> tensor -> tensor;      (* a * b *)
  scale_l : num -> tensor -> tensor;      (* c * a, c a float *)
  scale_r : tensor -> num -> tensor;      (* a * c, c a float *)
  zeros : list nat -> tensor              (* torch.zeros(shape) *)
}.

Module OrnsteinUhlenbeckPolicy.
Section WithTensors.
Context {num tensor : Type} `{Numeric num} `{TensorOps num tensor}.

(** [np.sqrt] *)
Variable sqrt : num -> num.

Record regressor : Type := {
  predict : tensor -> tensor;
  output_shape : list nat
}.

Record t : Type := {
  _approximator : regressor;
  _sigma : tensor;
  _theta : num;
  _dt : num;
  _x0 : option tensor
}.

Definition call (self : t) (state : tensor) : outcome tensor :=
  Raise NotImplementedError.

(** [noise] is the draw [torch.randn(size=output_shape)]. *)
Definition draw_action (self : t) (state policy_state noise : tensor) : tensor * tensor :=
  let mu := predict (_approximator self) state in
  let sqrt_dt := sqrt (_dt self) in
  let x := tadd (tsub policy_state
                      (scale_r (scale_l (_theta self) policy_state) (_dt self)))
                (tmul (scale_r (_sigma self) sqrt_dt) noise) in
  (tadd mu x, x).

Definition reset (self : t) : tensor :=
  match _x0 self with
  | Some x0 => x0
  | None => zeros (output_shape (_approximator self))
  end.

(** A control loop: each call receives the policy state the previous call
    returned.  [steps] lists the observed state and the noise draw of
    every call. *)
Fixpoint rollout (self : t) (policy_state : tensor) (steps : list (tensor * tensor))
    : list (tensor * tensor) :=
  match steps with
  | [] => []
  | (state, noise) :: rest =>
      let '(a, x) := draw_action self state policy_state noise in
      (a, x) :: rollout self x rest
  end.

(** The recurrence [x_{t+1} = x_t - theta*x_t*dt + sigma*sqrt(dt)*noise_t],
    as the documentation writes it. *)
Definition ou_next (theta dt : num) (sigma x noise : tensor) : tensor :=
  tadd (tsub x (scale_r (scale_l theta x) dt)) (tmul (scale_r sigma (sqrt dt)) noise).

Fixpoint ou_recurrence (theta dt : num) (sigma x : tensor) (noises : list tensor)
    : list tensor :=
  match noises with
  | [] => []
  | n :: rest =>
      let x' := ou_next theta dt sigma x n in
      x' :: ou_recurrence theta dt sigma x' rest
  end.

End WithTensors.
Arguments regressor {_}.
Arguments t {_ _}.
End OrnsteinUhlenbeckPolicy.

Module ClippedGaussianPolicy.
Section WithNumbers.
Context {num : Type} `{Numeric num}.

(** [torch.tanh], [torch.sigmoid] on one entry. *)
Variables tanh sigmoid : num -> num.

(** A 1-D tensor. *)
Definition vec : Type := list num.

(** An entry-wise operation on two 1-D tensors, a tensor of one entry being
    expanded to the other's length. *)
Definition broadcast2 (f : num -> num -> num) (a b : vec) : outcome vec :=
  if decide (length a = length b) then Ret (zip_with f a b)
  else
    match a, b with
    | [x], _ => Ret (map (f x) b)
    | _, [y] => Ret (map (fun x => f x y) a)
    | _, _ => Raise RuntimeError
    end.

(** [torch.clip(v, low, high)]: min(max(v, low), high), entry by entry. *)
Definition torch_clip (v low high : vec) : outcome vec :=
  let* w := broadcast2 fmax v low in
  broadcast2 fmin w high.

(** The position a slice bound denotes in a sequence of length [n]. *)
Definition slice_bound (n : nat) (k : Z) : nat :=
  if (k <? 0)%Z then Z.to_nat (Z.max 0 (Z.of_nat n + k))
  else Nat.min (Z.to_nat k) n.

(** [v[k:]], [v[:k]] and [v[k:] = w]. *)
Definition slice_from (k : Z) (v : vec) : vec := drop (slice_bound (length v) k) v.
Definition slice_to (k : Z) (v : vec) : vec := take (slice_bound (length v) k) v.
Definition assign_from (k : Z) (v w : vec) : outcome vec :=
  let b := slice_bound (length v) k in
  if decide (length w = length v - b) then Ret (take b v ++ w)
  else
    match w with
    | [x] => Ret (take b v ++ replicate (length v - b) x)
    | _ => Raise RuntimeError
    end.

(** [MultivariateNormal(loc, scale_tril).sample()], [eps] being the
    standard normal draw: loc + scale_tril @ eps. *)
Definition dot (a b : vec) : num := fold_left fadd (zip_with fmul a b) f0.
Definition matvec (m : list vec) (v : vec) : vec := map (fun row => dot row v) m.
Definition mvn_sample (loc : vec) (scale_tril : list vec) (eps : vec) : outcome vec :=
  if decide (length scale_tril = length loc
             /\ Forall (fun row => length row = length loc) scale_tril
             /\ length eps = length loc)
  then Ret (zip_with fadd loc (matvec scale_tril eps))
  else Raise RuntimeError.

Record regressor : Type := {
  predict : vec -> vec
}.

Record t : Type := {
  _approximator : regressor;
  _chol_sigma : list vec;
  _low : vec;
  _high : vec;
  _draw_random_act : bool;
  _draw_deterministic : bool;
  _squash_actions : bool;
  _discrete_action_dims : Z;
  _continuous_action_dims : Z;
  _normalize_states : bool;
  _states_mean : option vec;       (* None until the agent sets it *)
  _states_std : option vec         (* None until the agent sets it *)
}.

Definition call (self : t) (state : vec) : outcome vec :=
  Raise NotImplementedError.

(** [u] is the draw [torch.rand(low.shape)]. *)
Definition draw_random_action (self : t) (u : vec) : outcome (vec * option vec) :=
  let* width := broadcast2 fsub (_high self) (_low self) in
  let* scaled := broadcast2 fmul u width in
  let* a := broadcast2 fadd scaled (_low self) in
  Ret (a, None).

(** The local [action] is bound only inside the branch on the discrete
    components: it is an [option] here, and reading it while it is unbound
    raises. *)
Definition draw_deterministic_action (self : t) (state : vec)
    : outcome (vec * option vec) :=
  let* state :=
    (if _normalize_states self then
       match _states_mean self with
       | None => Raise ValueError   (* 'States mean is not set by the agent class' *)
       | Some mean =>
           let* centred := broadcast2 fsub state mean in
           match _states_std self with
           | None => Raise TypeError        (* tensor / None *)
           | Some std => broadcast2 fdiv centred std
           end
       end
     else Ret state) in
  let mu := predict (_approximator self) state in
  let* mu :=
    (if _squash_actions self then
       assign_from (- _continuous_action_dims self) mu
         (map tanh (slice_from (- _continuous_action_dims self) mu))
     else Ret mu) in
  let action_raw := slice_from (- _continuous_action_dims self) mu in
  let action :=
    if (0 <? _discrete_action_dims self)%Z then
      let action_disc := map sigmoid (slice_to (_discrete_action_dims self) mu) in
      Some (action_disc ++ action_raw)
    else None in
  match action with
  | None => Raise UnboundLocalError
  | Some action =>
      let* clipped := torch_clip action (_low self) (_high self) in
      Ret (clipped, None)
  end.

(** [u] and [eps] are the uniform and the standard normal draw the call
    may consume. *)
Definition draw_action (self : t) (state u eps : vec) : outcome (vec * option vec) :=
  if _draw_random_act self then draw_random_action self u
  else if _draw_deterministic self then draw_deterministic_action self state
  else
    let* state :=
      (if _normalize_states self then
         match _states_mean self with
         | None => Raise ValueError   (* 'States mean is not set by the agent class' *)
         | Some mean =>
             let* centred := broadcast2 fsub state mean in
             match _states_std self with
             | None => Raise TypeError      (* tensor / None *)
             | Some std => broadcast2 fdiv centred std
             end
         end
       else Ret state) in
    let mu := predict (_approximator self) state in
    let* mu :=
      (if _squash_actions self then
         assign_from (- _continuous_action_dims self) mu
           (map tanh (slice_from (- _continuous_action_dims self) mu))
       else Ret mu) in
    let* action_raw :=
      mvn_sample (slice_from (- _continuous_action_dims self) mu) (_chol_sigma self) eps in
    let action :=
      if (0 <? _discrete_action_dims self)%Z then
        let action_disc := map sigmoid (slice_to (_discrete_action_dims self) mu) in
        Some (action_disc ++ action_raw)
      else None in
    match action with
    | None => Raise UnboundLocalError
    | Some action =>
        let* clipped := torch_clip action (_low self) (_high self) in
        Ret (clipped, None)
    end.

(** The mean once the squashing step has run: [mu[:-c]] kept, [mu[-c:]]
    passed through tanh. *)
Definition squashed (self : t) (mu : vec) : vec :=
  if _squash_actions self then
    slice_to (- _continuous_action_dims self) mu
    ++ map tanh (slice_from (- _continuous_action_dims self) mu)
  else mu.

(** The entry of a bound that entry [i] of an action meets: the only one
    of a one-entry tensor, the [i]-th otherwise. *)
Definition bget (l : vec) (i : nat) : option num :=
  match l with
  | [x] => Some x
  | _ => l !! i
  end.

(** The policy with state normalisation switched off. *)
Definition without_normalization (self : t) : t :=
  {| _approximator := _approximator self;
     _chol_sigma := _chol_sigma self;
     _low := _low self;
     _high := _high self;
     _draw_random_act := _draw_random_act self;
     _draw_deterministic := _draw_deterministic self;
     _squash_actions := _squash_actions self;
     _discrete_action_dims := _discrete_action_dims self;
     _continuous_action_dims := _continuous_action_dims self;
     _normalize_states := false;
     _states_mean := _states_mean self;
     _states_std := _states_std self |}.

End WithNumbers.
End ClippedGaussianPolicy.

(** ** Concrete data, over the integers and over the floats *)

Module Examples.
Import Dataset.

(** A scalar array. *)
Definition scalar (x : Z) : @tensor Z := {| shape := []; data := [x] |}.

(** A non-absorbing step from state [s] with reward [r]. *)
Definition step (s r : Z) (l : bool) : @transition Z :=
  {| state := scalar s; action := scalar 0; reward := r;
     next_state := scalar (s + 1); absorbing := false; last := l |}.

(** Five transitions with rewards 1, 1, 1, 2, 3 and [last] flags
    0, 0, 1, 0, 1: two episodes. *)
Definition two_episodes : list (@transition Z) :=
  [step 0 1 false; step 1 1 false; step 2 1 true; step 0 2 false; step 1 3 true].

(** The same rewards and flags along other states and actions. *)
Definition two_episodes_elsewhere : list (@transition Z) :=
  map (fun tr => {| state := scalar 7; action := scalar 9; reward := reward tr;
                    next_state := scalar 8; absorbing := true; last := last tr |})
      two_episodes.

(** Storing a value of another shape is refused. *)
Definition no_broadcast (shp : list nat) (v : @tensor Z) : outcome (@tensor Z) :=
  Raise ValueError.

(** Three actions, all of value [s] in state [s]. *)
Definition flat_q : approximator (list Z) :=
  {| predict_all := fun states => map (fun s => [s; s; s]) states |}.

(** Scalars as tensors. *)
#[export] Instance Z_tensor : TensorOps Z Z := {
  tadd := Z.add;
  tsub := Z.sub;
  tmul := Z.mul;
  scale_l := Z.mul;
  scale_r := Z.mul;
  zeros := fun _ => 0%Z
}.

Definition ou : @OrnsteinUhlenbeckPolicy.t Z Z :=
  {| OrnsteinUhlenbeckPolicy._approximator :=
       {| OrnsteinUhlenbeckPolicy.predict := fun s => (2 * s)%Z;
          OrnsteinUhlenbeckPolicy.output_shape := [] |};
     OrnsteinUhlenbeckPolicy._sigma := 3%Z;
     OrnsteinUhlenbeckPolicy._theta := 2%Z;
     OrnsteinUhlenbeckPolicy._dt := 4%Z;
     OrnsteinUhlenbeckPolicy._x0 := None |}.

(** A Gaussian policy in stochastic mode on one continuous component,
    with [d] discrete ones. *)
Definition gaussian (d : Z) (normalize : bool) (mean std : option (list Z))
    : @ClippedGaussianPolicy.t Z :=
  {| ClippedGaussianPolicy._approximator :=
       {| ClippedGaussianPolicy.predict := fun s => s |};
     ClippedGaussianPolicy._chol_sigma := [[1%Z]];
     ClippedGaussianPolicy._low := [(-5)%Z];
     ClippedGaussianPolicy._high := [5%Z];
     ClippedGaussianPolicy._draw_random_act := false;
     ClippedGaussianPolicy._draw_deterministic := false;
     ClippedGaussianPolicy._squash_actions := false;
     ClippedGaussianPolicy._discrete_action_dims := d;
     ClippedGaussianPolicy._continuous_action_dims := 1%Z;
     ClippedGaussianPolicy._normalize_states := normalize;
     ClippedGaussianPolicy._states_mean := mean;
     ClippedGaussianPolicy._states_std := std |}.

(** A Gaussian policy on [d] discrete and [c] continuous components, in
    the mode the first two flags select, with the given bounds. *)
Definition mixed (random deterministic squash : bool) (d c : Z) (low high : list Z)
    : @ClippedGaussianPolicy.t Z :=
  {| ClippedGaussianPolicy._approximator :=
       {| ClippedGaussianPolicy.predict := fun s => s |};
     ClippedGaussianPolicy._chol_sigma := [[1%Z]];
     ClippedGaussianPolicy._low := low;
     ClippedGaussianPolicy._high := high;
     ClippedGaussianPolicy._draw_random_act := random;
     ClippedGaussianPolicy._draw_deterministic := deterministic;
     ClippedGaussianPolicy._squash_actions := squash;
     ClippedGaussianPolicy._discrete_action_dims := d;
     ClippedGaussianPolicy._continuous_action_dims := c;
     ClippedGaussianPolicy._normalize_states := false;
     ClippedGaussianPolicy._states_mean := None;
     ClippedGaussianPolicy._states_std := None |}.

(** Broadcasting a one-entry value to any shape, as numpy does. *)
Definition stretch (shp : list nat) (v : @tensor Z) : outcome (@tensor Z) :=
  match data v with
  | [x] => Ret {| shape := shp; data := replicate (foldr Nat.mul 1 shp) x |}
  | _ => Raise ValueError
  end.

(** Two transitions, the second with a scalar state where the first has a
    pair. *)
Definition ragged : list (@transition Z) :=
  [ {| state := {| shape := [2]; data := [1%Z; 2%Z] |}; action := scalar 0;
       reward := 4%Z; next_state := scalar 1; absorbing := false; last := false |};
    {| state := scalar 5; action := scalar 0;
       reward := 6%Z; next_state := scalar 2; absorbing := true; last := true |} ].

(** *** Over the binary64 floats *)

Import PrimFloat.

Definition fscalar (x : PrimFloat.float) : @tensor PrimFloat.float :=
  {| shape := []; data := [x] |}.

(** A step with reward [r]. *)
Definition fstep (r : PrimFloat.float) (l : bool) : @transition PrimFloat.float :=
  {| state := fscalar PrimFloat.zero; action := fscalar PrimFloat.zero; reward := r;
     next_state := fscalar PrimFloat.one; absorbing := false; last := l |}.

(** One episode of three steps, each of reward 1. *)
Definition three_steps : list (@transition PrimFloat.float) :=
  [fstep PrimFloat.one false; fstep PrimFloat.one false; fstep PrimFloat.one true].

(** One episode of a single step, followed by three steps of an episode
    that has not ended. *)
Definition one_step_and_tail : list (@transition PrimFloat.float) :=
  [fstep PrimFloat.one true; fstep PrimFloat.one false; fstep PrimFloat.one false;
   fstep PrimFloat.one false].

(** One episode of [n + 1] steps, each of reward 0. *)
Definition long_episode (n : nat) : list (@transition PrimFloat.float) :=
  replicate n (fstep PrimFloat.zero false) ++ [fstep PrimFloat.zero true].

(** [2. ** 700], a float whose square leaves the range. *)
Definition huge : PrimFloat.float := 0x1p+700%float.

(** Two actions, of values [inf] and [1.] in every state. *)
Definition unbounded_q : @approximator PrimFloat.float (list PrimFloat.float) :=
  {| predict_all := fun states => map (fun _ => [PrimFloat.infinity; PrimFloat.one]) states |}.

End Examples.

(** * Properties *)

(** ** The integers are numbers *)

Lemma Z_numeric_laws : NumericLaws Z.
Proof.
  split; simpl; intros.
  - destruct x; reflexivity.
  - apply Z.mul_1_r.
  - apply Z.mul_0_r.
  - f_equal. apply Z.pow_1_l; lia.
  - reflexivity.
  - reflexivity.
  - discriminate.
  - rewrite !Z.leb_le; lia.
  - rewrite Z.leb_le in *; lia.
  - rewrite Z.leb_le in *; lia.
  - apply Z.eqb_eq.
  - reflexivity.
Qed.

(** ** The floats have the powers of 1 *)

Lemma binary64_product_one k : Binary64.product PrimFloat.one k = PrimFloat.one.
Proof. induction k as [|k IH]; simpl; [|rewrite IH]; reflexivity. Qed.

Lemma binary64_pow_one k : fpow (f1 : PrimFloat.float) k = Ret f1.
Proof. simpl. unfold Binary64.pow. rewrite binary64_product_one. reflexivity. Qed.

(** ** Numbers *)

(** A flag stored as a number reads back as itself as soon as [1 == 0] is
    False and [0 == 0] is True. *)
Lemma truthy_of_bool_from {num : Type} `{Numeric num} :
  feq f1 f0 = false -> feq f0 f0 = true ->
  forall b : bool, truthy (of_bool b : num) = b.
Proof.
  intros H10 H00 b. unfold truthy, of_bool.
  destruct b; [rewrite H10 | rewrite H00]; reflexivity.
Qed.

Section NumericFacts.
Context {num : Type} `{NumericLaws num}.

Lemma feq_1_0 : feq (f1 : num) f0 = false.
Proof.
  destruct (feq f1 f0) eqn:E; [|reflexivity].
  apply feq_spec in E. destruct (f1_neq_f0 E).
Qed.

Lemma feq_0_0 : feq (f0 : num) f0 = true.
Proof. apply feq_spec. reflexivity. Qed.

Lemma truthy_of_bool (b : bool) : truthy (of_bool b : num) = b.
Proof. apply truthy_of_bool_from; [apply feq_1_0 | apply feq_0_0]. Qed.

Lemma fle_refl (x : num) : fle x x = true.
Proof. destruct (fle_total x x); assumption. Qed.

Lemma fle_false (x y : num) : fle x y = false -> fle y x = true /\ x <> y.
Proof.
  intros Hf. split.
  - destruct (fle_total x y); congruence.
  - intros ->. rewrite fle_refl in Hf. discriminate.
Qed.

Lemma fmax_cases (x y : num) :
  (fmax x y = x /\ fle y x = true) \/ (fmax x y = y /\ fle x y = true).
Proof.
  unfold fmax. destruct (fle y x) eqn:E; [left; auto|].
  right. split; [reflexivity|]. apply fle_false in E. tauto.
Qed.

Lemma fmin_cases (x y : num) :
  (fmin x y = x /\ fle x y = true) \/ (fmin x y = y /\ fle y x = true).
Proof.
  unfold fmin. destruct (fle x y) eqn:E; [left; auto|].
  right. split; [reflexivity|]. apply fle_false in E. tauto.
Qed.

Lemma fmax_ge_l (x y : num) : fle x (fmax x y) = true.
Proof. destruct (fmax_cases x y) as [[-> _]|[-> Hle]]; [apply fle_refl | exact Hle]. Qed.

Lemma fmax_ge_r (x y : num) : fle y (fmax x y) = true.
Proof. destruct (fmax_cases x y) as [[-> Hle]|[-> _]]; [exact Hle | apply fle_refl]. Qed.

Lemma fmin_le_l (x y : num) : fle (fmin x y) x = true.
Proof. destruct (fmin_cases x y) as [[-> _]|[-> Hle]]; [apply fle_refl | exact Hle]. Qed.

Lemma fmin_le_r (x y : num) : fle (fmin x y) y = true.
Proof. destruct (fmin_cases x y) as [[-> Hle]|[-> _]]; [exact Hle | apply fle_refl]. Qed.

(** Folding [max] over a list gives an entry that bounds all of them. *)
Lemma fold_fmax_spec (xs : list num) (x : num) :
  In (fold_left fmax xs x) (x :: xs)
  /\ Forall (fun y => fle y (fold_left fmax xs x) = true) (x :: xs).
Proof.
  revert x. induction xs as [|y xs IH]; intros x; simpl.
  - split; [left; reflexivity|]. constructor; [apply fle_refl | constructor].
  - destruct (IH (fmax x y)) as [Hin Hall].
    inversion Hall as [|? ? Hm Hxs]; subst.
    split.
    + destruct Hin as [Hin|Hin]; [|right; right; exact Hin].
      rewrite <- Hin. destruct (fmax_cases x y) as [[-> _]|[-> _]]; simpl; auto.
    + constructor; [eapply fle_trans; [apply fmax_ge_l | exact Hm]|].
      constructor; [eapply fle_trans; [apply fmax_ge_r | exact Hm] | exact Hxs].
Qed.

Lemma fold_fmin_spec (xs : list num) (x : num) :
  In (fold_left fmin xs x) (x :: xs)
  /\ Forall (fun y => fle (fold_left fmin xs x) y = true) (x :: xs).
Proof.
  revert x. induction xs as [|y xs IH]; intros x; simpl.
  - split; [left; reflexivity|]. constructor; [apply fle_refl | constructor].
  - destruct (IH (fmin x y)) as [Hin Hall].
    inversion Hall as [|? ? Hm Hxs]; subst.
    split.
    + destruct Hin as [Hin|Hin]; [|right; right; exact Hin].
      rewrite <- Hin. destruct (fmin_cases x y) as [[-> _]|[-> _]]; simpl; auto.
    + constructor; [eapply fle_trans; [exact Hm | apply fmin_le_l]|].
      constructor; [eapply fle_trans; [exact Hm | apply fmin_le_r] | exact Hxs].
Qed.

End NumericFacts.

(** ** Loops over [xrange] *)

Lemma for_range_succ {S : Type} (n : nat) (body : nat -> S -> S) (init : S) :
  for_range (Datatypes.S n) body init = body n (for_range n body init).
Proof.
  unfold for_range. rewrite seq_S, fold_left_app. reflexivity.
Qed.

(** A loop that only reads [l[i]] is a fold over [l]. *)
Lemma for_range_lookup {A S : Type} (l : list A) (body : nat -> S -> S)
    (g : S -> A -> S) (init : S) :
  (forall i x st, l !! i = Some x -> body i st = g st x) ->
  for_range (length l) body init = fold_left g l init.
Proof.
  revert body g init. induction l as [|x l IH] using rev_ind; intros body g init Hb.
  - reflexivity.
  - rewrite length_app. simpl. rewrite Nat.add_1_r, for_range_succ.
    rewrite fold_left_app. simpl.
    rewrite (IH body g init).
    + apply Hb. rewrite lookup_app_r by lia. rewrite Nat.sub_diag. reflexivity.
    + intros i y st Hi. apply Hb. rewrite lookup_app_l; [exact Hi|].
      eapply lookup_lt_Some; eauto.
Qed.

(** ** Returns per episode *)

Module DatasetFacts.
Import Dataset.
Section Returns.
Context {num : Type} `{Numeric num}.
Implicit Types (dataset ep cur : list (@transition num)) (gamma : num).

Lemma compute_J_fold dataset gamma :
  compute_J dataset gamma
  = let* st := fold_left (compute_J_round gamma) dataset (Ret ([], f0, 0)) in
    Ret st.1.1.
Proof.
  unfold compute_J.
  erewrite for_range_lookup with (g := compute_J_round gamma).
  - reflexivity.
  - intros i x st Hi. rewrite Hi. reflexivity.
Qed.

(** Once an exception is raised the loop is over. *)
Lemma compute_J_rounds_raise gamma dataset e :
  fold_left (compute_J_round gamma) dataset (Raise e) = Raise e.
Proof. induction dataset as [|tr rest IH]; simpl; [reflexivity | exact IH]. Qed.

Lemma discounted_from_app gamma ep more t acc :
  discounted_from gamma t acc (ep ++ more)
  = let* a := discounted_from gamma t acc ep in
    discounted_from gamma (t + length ep) a more.
Proof.
  revert t acc. induction ep as [|x ep IH]; intros t acc; simpl.
  - rewrite Nat.add_0_r. reflexivity.
  - destruct (fpow gamma t) as [power|e]; simpl; [|reflexivity].
    rewrite IH. replace (S t + length ep) with (t + S (length ep)) by lia. reflexivity.
Qed.

Lemma discounted_return_snoc gamma ep tr j :
  discounted_return gamma ep = Ret j ->
  discounted_return gamma (ep ++ [tr])
  = let* power := fpow gamma (length ep) in Ret (fadd j (fmul power (reward tr))).
Proof.
  unfold discounted_return. intros Hj. rewrite discounted_from_app, Hj. simpl.
  destruct (fpow gamma (length ep)); reflexivity.
Qed.

Lemma discounted_return_raise gamma ep more e :
  discounted_return gamma ep = Raise e ->
  discounted_return gamma (ep ++ more) = Raise e.
Proof.
  unfold discounted_return. intros He. rewrite discounted_from_app, He. reflexivity.
Qed.

(** A run whose return cannot be computed spoils whatever follows it. *)
Lemma returns_after_raise gamma dataset cur js e :
  discounted_return gamma cur = Raise e ->
  (let* rs := omap_list (discounted_return gamma) (split_episodes cur dataset).1 in
   let* jt := discounted_return gamma (split_episodes cur dataset).2 in
   Ret (js ++ rs, jt, length (split_episodes cur dataset).2))
  = Raise e.
Proof.
  revert cur. induction dataset as [|tr rest IH]; intros cur He; simpl.
  - rewrite He. reflexivity.
  - pose proof (discounted_return_raise gamma cur [tr] e He) as He'.
    destruct (last tr).
    + destruct (split_episodes [] rest) as [eps tl]. simpl. rewrite He'. reflexivity.
    + apply IH. exact He'.
Qed.

(** The loop invariant of [compute_J]: [j] is the return of the run read
    so far and [episode_steps] its length. *)
Lemma compute_J_loop gamma dataset cur js j :
  discounted_return gamma cur = Ret j ->
  fold_left (compute_J_round gamma) dataset (Ret (js, j, length cur))
  = let* rs := omap_list (discounted_return gamma) (split_episodes cur dataset).1 in
    let* jt := discounted_return gamma (split_episodes cur dataset).2 in
    Ret (js ++ rs, jt, length (split_episodes cur dataset).2).
Proof.
  revert cur js j. induction dataset as [|tr rest IH]; intros cur js j Hj.
  - simpl. rewrite Hj. simpl. rewrite app_nil_r. reflexivity.
  - simpl fold_left. simpl split_episodes.
    pose proof (discounted_return_snoc gamma cur tr j Hj) as Hsnoc.
    destruct (fpow gamma (length cur)) as [power|e]; simpl in Hsnoc; simpl obind.
    + destruct (last tr) eqn:Hl.
      * rewrite (IH [] (js ++ [fadd j (fmul power (reward tr))]) f0 eq_refl).
        destruct (split_episodes [] rest) as [eps tl]. simpl. rewrite Hsnoc. simpl.
        destruct (omap_list (discounted_return gamma) eps) as [rs|e]; simpl;
          [|reflexivity].
        rewrite <- app_assoc. reflexivity.
      * replace (length cur + 1) with (length (cur ++ [tr]))
          by (rewrite length_app; reflexivity).
        apply IH. exact Hsnoc.
    + rewrite compute_J_rounds_raise. symmetry.
      destruct (last tr).
      * destruct (split_episodes [] rest) as [eps tl]. simpl. rewrite Hsnoc. reflexivity.
      * apply returns_after_raise. exact Hsnoc.
Qed.

(** The split really is the partition into episodes. *)
Lemma split_episodes_concat dataset cur :
  concat (split_episodes cur dataset).1 ++ (split_episodes cur dataset).2
  = cur ++ dataset.
Proof.
  revert cur. induction dataset as [|tr rest IH]; intros cur; simpl.
  - rewrite app_nil_r. reflexivity.
  - destruct (last tr).
    + specialize (IH []). destruct (split_episodes [] rest) as [eps tl].
      simpl in *. rewrite <- app_assoc, IH. rewrite <- app_assoc. reflexivity.
    + rewrite IH, <- app_assoc. reflexivity.
Qed.

Lemma split_episodes_shape dataset cur :
  Forall (fun x => last x = false) cur ->
  Forall is_episode (split_episodes cur dataset).1
  /\ Forall (fun x => last x = false) (split_episodes cur dataset).2.
Proof.
  revert cur. induction dataset as [|tr rest IH]; intros cur Hcur; simpl.
  - split; [constructor | exact Hcur].
  - destruct (last tr) eqn:Hl.
    + destruct (IH [] (Forall_nil_2 _)) as [He Ht].
      destruct (split_episodes [] rest) as [eps tl]. simpl in *.
      split; [|exact Ht]. constructor; [|exact He].
      exists cur; exists tr; auto.
    + apply IH. apply Forall_app. split; [exact Hcur|]. repeat constructor. exact Hl.
Qed.

Lemma split_episodes_count dataset cur :
  length (split_episodes cur dataset).1 = length (List.filter last dataset).
Proof.
  revert cur. induction dataset as [|tr rest IH]; intros cur; simpl.
  - reflexivity.
  - destruct (last tr).
    + specialize (IH []). destruct (split_episodes [] rest) as [eps tl].
      simpl in *. rewrite IH. reflexivity.
    + apply IH.
Qed.

Lemma compute_J_episodes dataset gamma :
  compute_J dataset gamma = episode_returns gamma dataset.
Proof.
  rewrite compute_J_fold.
  change 0 with (length (@nil (@transition num))).
  rewrite (compute_J_loop gamma dataset [] [] f0 eq_refl).
  unfold episode_returns, episodes, trailing.
  destruct (omap_list _ _) as [rs|e]; simpl; [|reflexivity].
  destruct (discounted_return _ _); reflexivity.
Qed.

Lemma omap_list_returns {A B : Type} (f : A -> outcome B) (l : list A) ys :
  omap_list f l = Ret ys -> Forall2 (fun x y => f x = Ret y) l ys.
Proof.
  revert ys. induction l as [|x l IH]; intros ys; simpl.
  - intros [= <-]. constructor.
  - destruct (f x) as [y|] eqn:Hy; simpl; [|discriminate].
    destruct (omap_list f l) as [ys'|]; simpl; [|discriminate].
    intros [= <-]. constructor; [exact Hy | apply IH; reflexivity].
Qed.

Lemma compute_J_returns dataset gamma js :
  compute_J dataset gamma = Ret js ->
  Forall2 (fun ep j => discounted_return gamma ep = Ret j) (episodes dataset) js.
Proof.
  rewrite compute_J_episodes. unfold episode_returns.
  destruct (omap_list _ _) as [rs|] eqn:Hrs; simpl; [|discriminate].
  destruct (discounted_return _ _); simpl; [|discriminate].
  intros [= <-]. apply omap_list_returns. exact Hrs.
Qed.

Lemma compute_J_length dataset gamma js :
  compute_J dataset gamma = Ret js ->
  length js = length (List.filter last dataset).
Proof.
  intros HJ. apply compute_J_returns, Forall2_length in HJ.
  rewrite <- HJ. apply split_episodes_count.
Qed.

(** A sum whose powers can all be taken can be computed. *)
Lemma discounted_from_defined gamma ep t acc :
  (forall i, i < length ep -> returns (fpow gamma (t + i))) ->
  returns (discounted_from gamma t acc ep).
Proof.
  revert t acc. induction ep as [|tr ep IH]; intros t acc Hp; simpl.
  - eexists. reflexivity.
  - destruct (Hp 0 ltac:(simpl; lia)) as [power Hpower].
    rewrite Nat.add_0_r in Hpower. rewrite Hpower. simpl. apply IH.
    intros i Hi. replace (S t + i) with (t + S i) by lia. apply Hp. simpl. lia.
Qed.

Lemma episode_returns_defined gamma dataset :
  (forall run t, In run (episodes dataset ++ [trailing dataset]) ->
                 t < length run -> returns (fpow gamma t)) ->
  returns (episode_returns gamma dataset).
Proof.
  intros Hp. unfold episode_returns.
  assert (Hall : forall runs, (forall run, In run runs -> In run (episodes dataset
                                 ++ [trailing dataset])) ->
                 returns (omap_list (discounted_return gamma) runs)).
  { induction runs as [|run runs IH]; intros Hin; simpl.
    - eexists. reflexivity.
    - destruct (discounted_from_defined gamma run 0 f0) as [j Hj].
      { intros i Hi. eapply Hp; [apply Hin; left; reflexivity | exact Hi]. }
      unfold discounted_return at 1. rewrite Hj. simpl.
      destruct IH as [js Hjs]; [intros r Hr; apply Hin; right; exact Hr|].
      rewrite Hjs. eexists. reflexivity. }
  destruct (Hall (episodes dataset)) as [js ->].
  { intros run Hr. apply in_or_app. left. exact Hr. }
  destruct (discounted_from_defined gamma (trailing dataset) 0 f0) as [j Hj].
  { intros i Hi. eapply Hp; [|exact Hi]. apply in_or_app. right. left. reflexivity. }
  unfold discounted_return. simpl. rewrite Hj. eexists. reflexivity.
Qed.

(** A sum that was computed had all its powers. *)
Lemma discounted_from_powers gamma ep t acc :
  returns (discounted_from gamma t acc ep) ->
  forall i, i < length ep -> returns (fpow gamma (t + i)).
Proof.
  revert t acc. induction ep as [|tr ep IH]; intros t acc Hr i Hi; simpl in *; [lia|].
  destruct (fpow gamma t) as [power|e] eqn:Hp; simpl in Hr.
  - destruct i as [|i].
    + rewrite Nat.add_0_r, Hp. eexists. reflexivity.
    + replace (t + S i) with (S t + i) by lia. eapply IH; [exact Hr | lia].
  - destruct Hr as [a Ha]. discriminate.
Qed.

Lemma omap_list_each {A B : Type} (f : A -> outcome B) (l : list A) :
  returns (omap_list f l) -> forall x, In x l -> returns (f x).
Proof.
  induction l as [|y l IH]; intros Hr x Hx; simpl in *; [tauto|].
  destruct (f y) as [b|e] eqn:Hy; simpl in Hr; [|destruct Hr; discriminate].
  destruct Hx as [->|Hx]; [rewrite Hy; eexists; reflexivity|].
  apply IH; [|exact Hx].
  destruct (omap_list f l); simpl in Hr; [eexists; reflexivity | destruct Hr; discriminate].
Qed.

Lemma episode_returns_powers gamma dataset :
  returns (episode_returns gamma dataset) ->
  forall run t, In run (episodes dataset ++ [trailing dataset]) ->
                t < length run -> returns (fpow gamma t).
Proof.
  unfold episode_returns. intros Hr run t Hin Ht.
  assert (Hrun : returns (discounted_return gamma run)).
  { destruct (omap_list _ _) as [js|e] eqn:Hjs; simpl in Hr;
      [|destruct Hr; discriminate].
    apply in_app_or in Hin. destruct Hin as [Hin|[<-|[]]].
    - eapply omap_list_each; [|exact Hin]. rewrite Hjs. eexists. reflexivity.
    - destruct (discounted_return gamma (trailing dataset));
        [eexists; reflexivity | simpl in Hr; destruct Hr; discriminate]. }
  exact (discounted_from_powers gamma run 0 f0 Hrun t Ht).
Qed.

(** C3, as the code has it.  [compute_J] computes, run after run, the
    discounted returns [sum_{t=0}^{T-1} gamma^t * reward_t] of the completed
    episodes and the powers of the unfinished tail, [t] counting from the
    first transition of the run: it raises the first exception a power
    [gamma ** t] raises (the OverflowError of a float power that leaves the
    range), and it returns exactly when every power it reaches ([t] below
    the length of a run, the tail included) exists.  What it returns is, in
    order, one value per completed episode, the return of that episode.
    The episodes are the maximal runs closed by a [last] transition:
    together with the unfinished tail they make up the dataset, and the
    tail, which holds no [last] transition, contributes no value. *)
Theorem compute_J_spec dataset gamma :
  compute_J dataset gamma = episode_returns gamma dataset
  /\ (returns (compute_J dataset gamma)
      <-> forall run t, In run (episodes dataset ++ [trailing dataset]) ->
                        t < length run -> returns (fpow gamma t))
  /\ (forall js, compute_J dataset gamma = Ret js ->
        length js = length (List.filter last dataset)
        /\ Forall2 (fun ep j => discounted_return gamma ep = Ret j)
                   (episodes dataset) js)
  /\ concat (episodes dataset) ++ trailing dataset = dataset
  /\ Forall is_episode (episodes dataset)
  /\ Forall (fun x => last x = false) (trailing dataset).
Proof.
  split; [apply compute_J_episodes|]. split.
  { rewrite compute_J_episodes. split.
    - apply episode_returns_powers.
    - apply episode_returns_defined. }
  split.
  { intros js HJ. split; [eapply compute_J_length | apply compute_J_returns]; exact HJ. }
  split; [apply (split_episodes_concat dataset [])|].
  apply split_episodes_shape. constructor.
Qed.

(** *** Scores *)

Lemma compute_scores_fold dataset :
  compute_scores dataset
  = let '(scores, _, _, n_episodes) :=
      fold_left compute_scores_step dataset ([], f0, 0, 0) in
    if 0 <? length scores then
      let* mn := np_min scores in
      let* mx := np_max scores in
      let* me := np_mean scores in
      Ret (mn, mx, me, n_episodes)
    else Ret (f0, f0, f0, 0).
Proof.
  unfold compute_scores.
  erewrite for_range_lookup with (g := compute_scores_step).
  - reflexivity.
  - intros i x st Hi. rewrite Hi. reflexivity.
Qed.

(** Both loops read a transition through its reward and its [last] flag
    only. *)
Lemma compute_J_step_ext gamma st (t1 t2 : @transition num) :
  reward t1 = reward t2 -> last t1 = last t2 ->
  compute_J_round gamma st t1 = compute_J_round gamma st t2.
Proof.
  intros Hr Hl. unfold compute_J_round, compute_J_step.
  destruct st as [[[js j] k]|e]; simpl; [|reflexivity].
  rewrite Hr, Hl. reflexivity.
Qed.

Lemma compute_scores_step_ext st (t1 t2 : @transition num) :
  reward t1 = reward t2 -> last t1 = last t2 ->
  compute_scores_step st t1 = compute_scores_step st t2.
Proof.
  intros Hr Hl. unfold compute_scores_step. destruct st as [[[sc s] k] n].
  rewrite Hr, Hl. reflexivity.
Qed.

Lemma fold_left_ext2 {A S : Type} (f : S -> A -> S) (l1 l2 : list A) (st : S) :
  Forall2 (fun x y => forall s, f s x = f s y) l1 l2 ->
  fold_left f l1 st = fold_left f l2 st.
Proof.
  intros HF. revert st. induction HF as [|x y l1 l2 Hxy _ IH]; intros st; simpl.
  - reflexivity.
  - rewrite Hxy. apply IH.
Qed.

(** C10. The returns and the scores of a dataset are a function of its
    reward and [last] columns: two datasets of one length whose transitions
    agree, position by position, on the reward and on the [last] flag have
    the same [compute_J], whatever the discount, and the same
    [compute_scores]; states, actions, next states and absorbing flags are
    never read. *)
Theorem returns_read_reward_and_last_only dataset1 dataset2 :
  Forall2 (fun t1 t2 : @transition num => reward t1 = reward t2 /\ last t1 = last t2)
          dataset1 dataset2 ->
  (forall gamma, compute_J dataset1 gamma = compute_J dataset2 gamma)
  /\ compute_scores dataset1 = compute_scores dataset2.
Proof.
  intros HF. split.
  - intros gamma. rewrite !compute_J_fold. f_equal.
    apply fold_left_ext2. eapply Forall2_impl; [exact HF|].
    intros t1 t2 [Hr Hl] s. apply compute_J_step_ext; assumption.
  - rewrite !compute_scores_fold.
    rewrite (fold_left_ext2 compute_scores_step dataset1 dataset2); [reflexivity|].
    eapply Forall2_impl; [exact HF|].
    intros t1 t2 [Hr Hl] s. apply compute_scores_step_ext; assumption.
Qed.

Section Undiscounted.
(** [1. ** k == 1.] and [1. * x == x]. *)
Hypothesis pow_one : forall k, fpow f1 k = Ret (f1 : num).
Hypothesis mul_one : forall x : num, fmul f1 x = x.

(** With [gamma = 1] the two loops walk in step, and [n_episodes] counts
    the scores. *)
Lemma scores_loop_is_J_loop dataset js j k :
  exists st,
    fold_left (compute_J_round f1) dataset (Ret (js, j, k)) = Ret st
    /\ fold_left compute_scores_step dataset (js, j, k, length js)
       = (st.1.1, st.1.2, st.2, length st.1.1).
Proof.
  revert js j k. induction dataset as [|tr rest IH]; intros js j k.
  - eexists. split; reflexivity.
  - simpl. rewrite pow_one. simpl. rewrite mul_one.
    destruct (last tr).
    + destruct (IH (js ++ [fadd j (reward tr)]) f0 0) as (st & HJ & HS).
      rewrite length_app in HS. simpl in HS. exists st. split; assumption.
    + apply IH.
Qed.

Lemma compute_scores_summary dataset :
  exists js,
    compute_J dataset f1 = Ret js
    /\ compute_scores dataset
       = if 0 <? length js then summary js else Ret (f0, f0, f0, 0).
Proof.
  destruct (scores_loop_is_J_loop dataset [] f0 0) as ([[js j] k] & HJ & HS).
  exists js. split.
  - rewrite compute_J_fold, HJ. reflexivity.
  - rewrite compute_scores_fold. simpl in HS. rewrite HS. reflexivity.
Qed.

Lemma no_return_no_last dataset gamma :
  compute_J dataset gamma = Ret [] <-> Forall (fun tr => last tr = false) dataset
                                       /\ returns (compute_J dataset gamma).
Proof.
  assert (Hcount : length (List.filter last dataset) = 0
                   <-> Forall (fun tr => last tr = false) dataset).
  { induction dataset as [|tr rest IH]; simpl.
    - split; [constructor | reflexivity].
    - destruct (last tr) eqn:Hl; simpl.
      + split; [discriminate|]. intros HF. inversion HF. congruence.
      + rewrite IH. split.
        * intros HF. constructor; assumption.
        * intros HF. inversion HF. assumption. }
  split.
  - intros HJ. split; [|eexists; exact HJ].
    apply Hcount. rewrite <- (compute_J_length _ _ _ HJ). reflexivity.
  - intros [HF [js HJ]]. rewrite HJ. f_equal.
    apply length_zero_iff_nil. rewrite (compute_J_length _ _ _ HJ). apply Hcount, HF.
Qed.

(** C4. [compute_scores] is [(min, max, mean, length)] of the list
    [compute_J(dataset, 1.)] of undiscounted returns when that list is
    not empty, and the sentinel [(0, 0, 0, 0)] when it is empty, which
    happens exactly when no transition of the dataset (the empty dataset
    included) carries [last].  Of the numbers, only [1. ** k == 1.] and
    [1. * x == x] are used; with them [compute_J(dataset, 1.)] always
    returns. *)
Theorem compute_scores_spec dataset :
  exists js,
    compute_J dataset f1 = Ret js
    /\ (js <> [] ->
          exists mn mx me,
            np_min js = Ret mn /\ np_max js = Ret mx /\ np_mean js = Ret me
            /\ compute_scores dataset = Ret (mn, mx, me, length js))
    /\ (js = [] -> compute_scores dataset = Ret (f0, f0, f0, 0))
    /\ (js = [] <-> Forall (fun tr => last tr = false) dataset).
Proof.
  destruct (compute_scores_summary dataset) as (js & HJ & Hs).
  exists js. split; [exact HJ|]. split; [|split].
  - intros Hne. rewrite Hs.
    destruct js as [|x xs]; [congruence|].
    simpl. eexists _, _, _. repeat split; reflexivity.
  - intros He. rewrite Hs, He. reflexivity.
  - pose proof (no_return_no_last dataset f1) as Hiff. rewrite HJ in Hiff.
    split.
    + intros ->. apply Hiff. reflexivity.
    + intros HF. assert (Ret js = Ret []) as [= ->]; [|reflexivity].
      apply Hiff. split; [exact HF | eexists; reflexivity].
Qed.

End Undiscounted.

End Returns.

(** ** Selecting episodes and samples *)

Section Selection.
Context {num : Type} `{Numeric num}.
Variable np_broadcast : list nat -> @tensor num -> outcome (@tensor num).
Implicit Types (dataset cur : list (@transition num)).

Lemma argwhere_from_length (mask : list bool) i :
  length (argwhere_from i mask) = length (List.filter id mask).
Proof.
  revert i. induction mask as [|b mask IH]; intros i; simpl.
  - reflexivity.
  - destruct b; simpl; rewrite IH; reflexivity.
Qed.

(** The [j]-th entry of [np.argwhere(mask)] is the position of the
    [j+1]-th True of [mask]. *)
Lemma argwhere_from_lookup (mask : list bool) i j k :
  argwhere_from i mask !! j = Some k ->
  exists p, k = i + p /\ mask !! p = Some true
            /\ length (List.filter id (take p mask)) = j.
Proof.
  revert i j. induction mask as [|b mask IH]; intros i j Hj; simpl in Hj.
  - discriminate.
  - destruct b.
    + destruct j as [|j]; simpl in Hj.
      * exists 0. inversion Hj. split; [lia|]. split; reflexivity.
      * destruct (IH _ _ Hj) as (p & -> & Hp & Hc).
        exists (S p). split; [lia|]. split; [exact Hp|]. simpl. rewrite Hc. reflexivity.
    + destruct (IH _ _ Hj) as (p & -> & Hp & Hc).
      exists (S p). split; [lia|]. split; [exact Hp|]. simpl. exact Hc.
Qed.

Lemma filter_id_map_last dataset :
  List.filter id (map last dataset) = map last (List.filter last dataset).
Proof.
  induction dataset as [|tr rest IH]; simpl; [reflexivity|].
  unfold id at 1. destruct (last tr) eqn:Hl; simpl; rewrite <- IH, ?Hl; reflexivity.
Qed.

(** Cutting just after the [j+1]-th [last] transition keeps the first
    [j+1] episodes. *)
Lemma take_through_last dataset cur p j tr :
  dataset !! p = Some tr -> last tr = true ->
  length (List.filter last (take p dataset)) = j ->
  concat (take (S j) (split_episodes cur dataset).1) = cur ++ take (S p) dataset.
Proof.
  revert cur p j. induction dataset as [|x rest IH]; intros cur p j Hp Hl Hc.
  - discriminate.
  - simpl split_episodes. destruct (last x) eqn:Hx.
    + destruct p as [|p]; simpl in Hp, Hc.
      * subst j. destruct (split_episodes [] rest) as [eps tl]; simpl.
        rewrite take_0, app_nil_r. reflexivity.
      * rewrite Hx in Hc. simpl in Hc. destruct j as [|j]; [discriminate|].
        injection Hc as Hc.
        specialize (IH [] p j Hp Hl Hc).
        destruct (split_episodes [] rest) as [eps tl]; simpl in *.
        rewrite IH, <- app_assoc. reflexivity.
    + destruct p as [|p]; simpl in Hp, Hc.
      * congruence.
      * rewrite Hx in Hc.
        rewrite (IH (cur ++ [x]) p j Hp Hl Hc), <- app_assoc. reflexivity.
Qed.

(** C5. With [1 <= n_episodes <=] the number of [last] transitions,
    [select_episodes] returns the rows of the dataset up to and including
    the [n_episodes]-th [last] transition, that is the first [n_episodes]
    complete episodes in their order; with [n_episodes = 0] it returns
    [np.array([[]])], an array that holds no element. *)
Theorem select_episodes_spec dataset (n_episodes : Z) :
  (0 <= n_episodes <= Z.of_nat (length (List.filter last dataset)))%Z ->
  (n_episodes = 0%Z ->
     exists a, select_episodes np_broadcast dataset n_episodes false = Ret (Sub a)
               /\ a = [[]] /\ np_size a = 0)
  /\ ((1 <= n_episodes)%Z ->
        exists k tr,
          dataset !! k = Some tr /\ last tr = true
          /\ length (List.filter last (take k dataset)) = Z.to_nat n_episodes - 1
          /\ select_episodes np_broadcast dataset n_episodes false
             = Ret (Sub (np_array (take (S k) dataset)))
          /\ take (S k) dataset = concat (take (Z.to_nat n_episodes) (episodes dataset))).
Proof.
  intros Hn. split.
  - intros ->. exists [[]]. repeat split.
  - intros H1. unfold select_episodes.
    destruct (Z.ltb_spec n_episodes 0); [lia|].
    destruct (Z.eqb_spec n_episodes 0); [lia|].
    destruct dataset as [|tr0 rest] eqn:Hd; [simpl in Hn; lia|].
    rewrite <- Hd in *. clear Hd tr0 rest.
    destruct (np_argwhere (map last dataset) !! Z.to_nat (n_episodes - 1))
      as [k|] eqn:Hk.
    + unfold np_argwhere in Hk.
      destruct (argwhere_from_lookup _ _ _ _ Hk) as (p & -> & Hp & Hc).
      simpl in *.
      rewrite list_lookup_fmap in Hp.
      destruct (dataset !! p) as [tr|] eqn:Htr; [|discriminate].
      simpl in Hp. injection Hp as Hl.
      rewrite firstn_map in Hc.
      assert (Hc' : length (List.filter last (take p dataset))
                    = Z.to_nat n_episodes - 1).
      { rewrite <- (length_map last), <- filter_id_map_last, Hc. lia. }
      exists p; exists tr. repeat split; try assumption.
      * rewrite Nat.add_1_r. reflexivity.
      * pose proof (take_through_last dataset [] p _ tr Htr Hl Hc') as HT.
        simpl in HT. rewrite <- HT. unfold episodes.
        replace (S (Z.to_nat n_episodes - 1)) with (Z.to_nat n_episodes) by lia.
        reflexivity.
    + apply lookup_ge_None in Hk. unfold np_argwhere in Hk.
      rewrite argwhere_from_length, filter_id_map_last, length_map in Hk. lia.
Qed.

(** *** Samples *)

(** Reading the rows at the drawn positions, all of them in range. *)
Lemma gather_rows dataset (idxs : list nat) :
  Forall (fun i => i < length dataset) idxs ->
  exists sub,
    foldr (fun i acc =>
             match dataset !! i with
             | Some tr => let* rest := acc in Ret (tr :: rest)
             | None => Raise IndexError
             end) (Ret []) idxs = Ret sub
    /\ Forall2 (fun i tr => dataset !! i = Some tr) idxs sub.
Proof.
  induction 1 as [|i idxs Hi _ (sub & Hs & HF)]; simpl.
  - exists []. split; [reflexivity | constructor].
  - destruct (lookup_lt_is_Some_2 dataset i Hi) as [tr Htr].
    rewrite Htr, Hs. simpl. exists (tr :: sub). split; [reflexivity|].
    constructor; assumption.
Qed.

(** C6, as the code has it.  For [n_samples >= 1] and a draw of
    [n_samples] positions of a non-empty dataset, [select_samples] returns
    exactly [n_samples] rows, the [j]-th being the dataset's row at the
    [j]-th drawn position (so every row is a row of the dataset, repeats
    allowed).  For [n_samples = 0] it returns the array [[[]]], which has
    one row of no column and holds no element. *)
Theorem select_samples_spec dataset (n_samples : Z) (idxs : list nat) :
  dataset <> [] ->
  (0 <= n_samples)%Z ->
  length idxs = Z.to_nat n_samples ->
  Forall (fun i => i < length dataset) idxs ->
  (n_samples = 0%Z ->
     exists a, select_samples np_broadcast dataset n_samples false idxs = Ret (Sub a)
               /\ a = [[]] /\ n_rows a = 1 /\ np_size a = 0)
  /\ ((1 <= n_samples)%Z ->
        exists a, select_samples np_broadcast dataset n_samples false idxs = Ret (Sub a)
                  /\ n_rows a = Z.to_nat n_samples
                  /\ Forall (fun row => In row (np_array dataset)) a
                  /\ Forall2 (fun i row => row_of <$> dataset !! i = Some row) idxs a).
Proof.
  intros Hne Hn Hlen Hidx. split.
  - intros ->. exists [[]]. repeat split.
  - intros H1. unfold select_samples.
    destruct (Z.ltb_spec n_samples 0); [lia|].
    destruct (Z.eqb_spec n_samples 0); [lia|].
    destruct dataset as [|tr0 rest] eqn:Hd; [congruence|].
    rewrite <- Hd in *. clear Hd tr0 rest Hne.
    destruct (gather_rows dataset idxs Hidx) as (sub & -> & HF). simpl.
    exists (np_array sub). split; [reflexivity|].
    assert (HF2 : Forall2 (fun i row => row_of <$> dataset !! i = Some row)
                          idxs (np_array sub)).
    { unfold np_array. clear -HF. induction HF as [|i tr idxs sub Hi _ IH]; simpl.
      - constructor.
      - constructor; [rewrite Hi; reflexivity | exact IH]. }
    split; [|split; [|exact HF2]].
    + unfold n_rows. rewrite <- (Forall2_length _ _ _ HF2). exact Hlen.
    + clear -HF2. induction HF2 as [|i row idxs a Hi _ IH]; constructor; [|exact IH].
      destruct (dataset !! i) as [tr|] eqn:Htr; [|discriminate].
      simpl in Hi. injection Hi as <-.
      unfold np_array. apply in_map. apply list_elem_of_In.
      eapply list_elem_of_lookup_2; eauto.
Qed.

(** *** Parsing *)

Lemma insert_take_replicate {A : Type} (l : list A) (k : nat) (d x : A) :
  l !! k = Some x ->
  <[k := x]> (take k l ++ replicate (length l - k) d)
  = take (S k) l ++ replicate (length l - S k) d.
Proof.
  intros Hk. pose proof (lookup_lt_Some _ _ _ Hk) as Hlt.
  rewrite insert_app_r_alt by (rewrite length_take; lia).
  rewrite length_take.
  replace (k - k `min` length l) with 0 by lia.
  replace (length l - k) with (S (length l - S k)) by lia.
  simpl. rewrite (take_S_r _ _ _ Hk), <- app_assoc. reflexivity.
Qed.

Lemma set_row_same shp i (v : @tensor num) arr :
  shape v = shp -> set_row np_broadcast shp i v arr = Ret (<[i := v]> arr).
Proof. intros Hs. unfold set_row. rewrite decide_True by exact Hs. reflexivity. Qed.

(** After [k] rounds the first [k] rows are filled and the others still
    hold ones. *)
Lemma parse_dataset_loop dataset tr0 k :
  Forall (same_shapes tr0) dataset ->
  k <= length dataset ->
  let n := length dataset in
  let fill {A : Type} (col : list A) (d : A) := take k col ++ replicate (n - k) d in
  for_range k
    (parse_dataset_step np_broadcast dataset (shape (state tr0)) (shape (action tr0))
       (shape (next_state tr0)))
    (Ret (replicate n (np_ones (shape (state tr0))),
          replicate n (np_ones (shape (action tr0))),
          replicate n f1,
          replicate n (np_ones (shape (next_state tr0))),
          replicate n f1, replicate n f1))
  = Ret (fill (map state dataset) (np_ones (shape (state tr0))),
         fill (map action dataset) (np_ones (shape (action tr0))),
         fill (map reward dataset) f1,
         fill (map next_state dataset) (np_ones (shape (next_state tr0))),
         fill (map (fun tr => of_bool (absorbing tr)) dataset) f1,
         fill (map (fun tr => of_bool (last tr)) dataset) f1).
Proof.
  intros Hsh Hk n fill. subst fill. induction k as [|k IH].
  - unfold for_range. simpl. rewrite !Nat.sub_0_r. reflexivity.
  - rewrite for_range_succ, IH by lia. clear IH.
    destruct (lookup_lt_is_Some_2 dataset k ltac:(lia)) as [tr Htr].
    destruct (proj1 (Forall_lookup _ _) Hsh k tr Htr) as (Hs & Ha & Hn).
    unfold parse_dataset_step. simpl. rewrite Htr.
    rewrite !set_row_same by assumption. simpl.
    subst n.
    assert (HL : forall {A : Type} (f : @transition num -> A) d,
               <[k := f tr]> (take k (map f dataset) ++ replicate (length dataset - k) d)
               = take (S k) (map f dataset) ++ replicate (length dataset - S k) d).
    { intros A f d.
      pose proof (insert_take_replicate (map f dataset) k d (f tr)) as HI.
      rewrite length_map in HI. apply HI.
      change (map f dataset) with (f <$> dataset).
      rewrite list_lookup_fmap, Htr. reflexivity. }
    rewrite !HL.
    rewrite (HL _ (fun tr => of_bool (absorbing tr))).
    rewrite (HL _ (fun tr => of_bool (last tr))).
    reflexivity.
Qed.

Lemma parse_dataset_columns dataset tr0 :
  dataset !! 0 = Some tr0 ->
  Forall (same_shapes tr0) dataset ->
  parse_dataset np_broadcast dataset = Ret (columns dataset).
Proof.
  intros H0 Hsh. unfold parse_dataset.
  destruct dataset as [|t rest] eqn:Hd; [discriminate|].
  simpl in H0. injection H0 as ->. rewrite <- Hd in *.
  rewrite (parse_dataset_loop dataset tr0 (length dataset) Hsh (le_n _)).
  rewrite Nat.sub_diag. simpl. unfold columns.
  rewrite !take_ge by (rewrite length_map; lia).
  rewrite !app_nil_r. reflexivity.
Qed.

Section RoundTrip.
(** [1. == 0] is False and [0. == 0] is True. *)
Hypothesis one_ne_zero : feq (f1 : num) f0 = false.
Hypothesis zero_eq_zero : feq (f0 : num) f0 = true.

Lemma reassemble_columns dataset i :
  reassemble (columns dataset) i = dataset !! i.
Proof.
  unfold reassemble, columns.
  change (map ?f dataset) with (f <$> dataset).
  rewrite !list_lookup_fmap.
  destruct (dataset !! i) as [tr|]; simpl; [|reflexivity].
  rewrite !(truthy_of_bool_from one_ne_zero zero_eq_zero). destruct tr; reflexivity.
Qed.

(** C7. On a non-empty dataset whose transitions all have the shapes of
    the first one, [parse_dataset] returns six arrays with one row per
    transition, in the dataset's order, and the transition read back
    from their [i]-th rows is the [i]-th transition of the dataset (the
    two flags, stored as 1. and 0., being read back as True and False). *)
Theorem parse_dataset_roundtrip dataset tr0 :
  dataset !! 0 = Some tr0 ->
  Forall (same_shapes tr0) dataset ->
  exists state_ action_ reward_ next_state_ absorbing_ last_,
    parse_dataset np_broadcast dataset
    = Ret (state_, action_, reward_, next_state_, absorbing_, last_)
    /\ length state_ = length dataset
    /\ length action_ = length dataset
    /\ length reward_ = length dataset
    /\ length next_state_ = length dataset
    /\ length absorbing_ = length dataset
    /\ length last_ = length dataset
    /\ forall i,
         reassemble (state_, action_, reward_, next_state_, absorbing_, last_) i
         = dataset !! i.
Proof.
  intros H0 Hsh.
  rewrite (parse_dataset_columns dataset tr0 H0 Hsh). unfold columns.
  eexists _, _, _, _, _, _. split; [reflexivity|].
  rewrite !length_map. repeat (split; [reflexivity|]).
  intros i. apply reassemble_columns.
Qed.

End RoundTrip.

End Selection.

(** ** Greedy values and actions *)

Section MaxQA.
Context {num : Type} `{NumericLaws num}.
Implicit Types (row : list num) (q : list (list num)).

Lemma is_max_unique row m m' : is_max row m -> is_max row m' -> m = m'.
Proof.
  intros [Hin Hall] [Hin' Hall'].
  rewrite Forall_forall in Hall, Hall'.
  apply fle_antisym; [apply Hall' | apply Hall]; apply list_elem_of_In; assumption.
Qed.

(** Without NaN, numpy's reductions are the plain maximum and minimum. *)
Lemma fold_np_maximum (xs : list num) x :
  fold_left np_maximum xs x = fold_left fmax xs x.
Proof.
  revert x. induction xs as [|y xs IH]; intros x; simpl; [reflexivity|].
  rewrite IH. unfold np_maximum, fmax. rewrite fisnan_false, orb_false_r. reflexivity.
Qed.

Lemma fold_np_minimum (xs : list num) x :
  fold_left np_minimum xs x = fold_left fmin xs x.
Proof.
  revert x. induction xs as [|y xs IH]; intros x; simpl; [reflexivity|].
  rewrite IH. unfold np_minimum, fmin. rewrite fisnan_false, orb_false_r. reflexivity.
Qed.

Lemma np_max_spec row :
  row <> [] -> exists m, np_max row = Ret m /\ is_max row m.
Proof.
  destruct row as [|x xs]; [congruence|]. intros _.
  exists (fold_left fmax xs x). split; [simpl; rewrite fold_np_maximum; reflexivity|].
  apply fold_fmax_spec.
Qed.

Lemma np_min_spec row :
  row <> [] ->
  exists m, np_min row = Ret m /\ In m row /\ Forall (fun x => fle m x = true) row.
Proof.
  destruct row as [|x xs]; [congruence|]. intros _.
  exists (fold_left fmin xs x). split; [simpl; rewrite fold_np_minimum; reflexivity|].
  apply fold_fmin_spec.
Qed.

(** The scan keeps the first position of the largest entry read so far. *)
Lemma argmax_scan_spec (l pre : list num) best best_i :
  is_max pre best ->
  pre !! best_i = Some best ->
  (forall j x, j < best_i -> pre !! j = Some x -> x <> best) ->
  exists m, let i := argmax_scan best_i best (length pre) l in
    is_max (pre ++ l) m /\ (pre ++ l) !! i = Some m
    /\ forall j x, j < i -> (pre ++ l) !! j = Some x -> x <> m.
Proof.
  revert pre best best_i. induction l as [|x l IH]; intros pre best best_i Hmax Hb Hfirst.
  - simpl. rewrite app_nil_r. exists best. auto.
  - simpl. destruct Hmax as [Hin Hall].
    pose proof (lookup_lt_Some _ _ _ Hb) as Hlt.
    replace (pre ++ x :: l) with ((pre ++ [x]) ++ l) by (rewrite <- app_assoc; reflexivity).
    replace (S (length pre)) with (length (pre ++ [x])) by (rewrite length_app; simpl; lia).
    destruct (fle x best) eqn:Hx.
    + apply IH.
      * split; [apply in_or_app; left; exact Hin|].
        apply Forall_app. split; [exact Hall|]. repeat constructor. exact Hx.
      * rewrite lookup_app_l by exact Hlt. exact Hb.
      * intros j y Hj Hy. rewrite lookup_app_l in Hy by lia. eauto.
    + rewrite fisnan_false. apply fle_false in Hx. destruct Hx as [Hbx Hne].
      apply IH.
      * split; [apply in_or_app; right; left; reflexivity|].
        apply Forall_app. split.
        -- eapply Forall_impl; [exact Hall|]. intros y Hy. simpl in Hy.
           eapply fle_trans; eauto.
        -- repeat constructor. apply fle_refl.
      * rewrite lookup_app_r by lia. rewrite Nat.sub_diag. reflexivity.
      * intros j y Hj Hy. rewrite lookup_app_l in Hy by lia.
        intros ->. apply Hne. apply fle_antisym; [|exact Hbx].
        rewrite Forall_forall in Hall. apply Hall.
        eapply list_elem_of_lookup_2; eauto.
Qed.

Lemma np_argmax_spec row :
  row <> [] -> exists i, np_argmax row = Ret i /\ first_argmax row i.
Proof.
  destruct row as [|x xs]; [congruence|]. intros _.
  destruct (argmax_scan_spec xs [x] x 0) as (m & Hmax & Hi & Hfirst).
  - split; [left; reflexivity|]. repeat constructor. apply fle_refl.
  - reflexivity.
  - intros j y Hj. lia.
  - simpl in *. rewrite fisnan_false. eexists. split; [reflexivity|]. split.
    + exists m. split; assumption.
    + intros j Hj (m' & Hj' & Hmax').
      rewrite (is_max_unique _ _ _ Hmax' Hmax) in Hj'.
      exact (Hfirst j m Hj Hj' eq_refl).
Qed.

(** *** The positions [np.argwhere] lists *)

Lemma argwhere_from_In (mask : list bool) i k :
  In k (argwhere_from i mask) <-> exists p, k = i + p /\ mask !! p = Some true.
Proof.
  revert i. induction mask as [|b mask IH]; intros i; simpl.
  - split; [tauto|]. intros (p & _ & Hp). discriminate.
  - assert (Hrest : In k (argwhere_from (S i) mask)
                    <-> exists p, k = i + S p /\ mask !! p = Some true).
    { rewrite IH. split; intros (p & -> & Hp); exists p; split; (lia || assumption). }
    destruct b; simpl; rewrite Hrest; split.
    + intros [<-|(p & -> & Hp)]; [exists 0 | exists (S p)]; split;
        (lia || assumption || reflexivity).
    + intros (p & -> & Hp). destruct p as [|p]; [left; lia|]. right. exists p. auto.
    + intros (p & -> & Hp). exists (S p). auto.
    + intros (p & -> & Hp). destruct p as [|p]; [discriminate|]. exists p. auto.
Qed.

Lemma argwhere_from_NoDup (mask : list bool) i : NoDup (argwhere_from i mask).
Proof.
  revert i. induction mask as [|b mask IH]; intros i; simpl.
  - constructor.
  - destruct b; [|apply IH]. constructor; [|apply IH].
    rewrite list_elem_of_In, argwhere_from_In. intros (p & Hp & _). lia.
Qed.

(** The tied maxima are the positions of the largest entry, each listed
    once. *)
Lemma tied_maxima_spec row :
  NoDup (tied_maxima row) /\ forall i, In i (tied_maxima row) <-> is_argmax row i.
Proof.
  split; [apply argwhere_from_NoDup|].
  intros i. unfold tied_maxima, np_argwhere. rewrite argwhere_from_In.
  split.
  - intros (p & -> & Hp). simpl.
    change (map ?f row) with (f <$> row) in Hp. rewrite list_lookup_fmap in Hp.
    destruct (row !! p) as [x|] eqn:Hx; [|discriminate].
    simpl in Hp. injection Hp as Hall. rewrite forallb_forall in Hall.
    exists x. split; [exact Hx|]. split.
    + apply list_elem_of_In. eapply list_elem_of_lookup_2; eauto.
    + apply Forall_forall. intros y Hy. apply Hall. apply list_elem_of_In. exact Hy.
  - intros (m & Hi & Hin & Hall). exists i. split; [reflexivity|].
    change (map ?f row) with (f <$> row). rewrite list_lookup_fmap, Hi. simpl.
    f_equal. apply forallb_forall. intros y Hy.
    rewrite Forall_forall in Hall. apply Hall. apply list_elem_of_In. exact Hy.
Qed.

(** Comparing the entries with the maximum marks the tied maxima. *)
Lemma eq_max_mask row m :
  is_max row m ->
  map (fun x => feq x m) row = map (fun x => forallb (fun y => fle y x) row) row.
Proof.
  intros Hmax. apply map_ext_in. intros x Hx.
  destruct (feq x m) eqn:E.
  - apply feq_spec in E. subst x. symmetry. apply forallb_forall.
    destruct Hmax as [_ Hall]. rewrite Forall_forall in Hall.
    intros y Hy. apply Hall. apply list_elem_of_In. exact Hy.
  - symmetry. apply Bool.not_true_is_false. intros Hall.
    rewrite forallb_forall in Hall.
    assert (x = m); [|subst; rewrite (proj2 (feq_spec m m) eq_refl) in E; discriminate].
    destruct Hmax as [Hin Hm]. rewrite Forall_forall in Hm.
    apply fle_antisym; [apply Hm; apply list_elem_of_In; exact Hx | apply Hall; exact Hin].
Qed.

(** *** Zeroing the absorbing rows *)

Lemma np_any_of_bool (flags : list bool) :
  np_any (map of_bool flags : list num) = existsb id flags.
Proof.
  unfold np_any. induction flags as [|b flags IH]; simpl; [reflexivity|].
  rewrite truthy_of_bool, IH. reflexivity.
Qed.

Lemma zero_absorbing_none q (flags : list bool) :
  length flags = length q -> existsb id flags = false -> zero_absorbing q flags = q.
Proof.
  unfold zero_absorbing. revert flags.
  induction q as [|row q IH]; intros [|b flags] Hlen Hex; simpl in *;
    try reflexivity; try discriminate.
  apply Bool.orb_false_iff in Hex. destruct Hex as [Hb Hex]. unfold id in Hb. subst b.
  rewrite IH by (lia || assumption). reflexivity.
Qed.

Lemma imul_column_flags q (flags : list bool) :
  zip_with (fun row c => map (fun x => fmul x c) row) q
           (map (fun a => fsub f1 a) (map of_bool flags))
  = zero_absorbing q flags.
Proof.
  unfold zero_absorbing. revert flags.
  induction q as [|row q IH]; intros [|b flags]; simpl; try reflexivity.
  rewrite IH. f_equal. destruct b; simpl.
  - rewrite fsub_1_1. apply map_ext. intros x. apply fmul_0_r.
  - rewrite fsub_1_0. rewrite <- (map_id row) at 2. apply map_ext. intros x. apply fmul_1_r.
Qed.

Lemma zeroing q (flags : list bool) :
  length flags = length q ->
  (if np_any (map of_bool flags)
   then imul_column q (map (fun a => fsub f1 a) (map of_bool flags))
   else Ret q)
  = Ret (zero_absorbing q flags).
Proof.
  intros Hlen. rewrite np_any_of_bool.
  destruct (existsb id flags) eqn:Hex.
  - unfold imul_column. rewrite decide_True by (rewrite !length_map; exact Hlen).
    rewrite imul_column_flags. reflexivity.
  - rewrite zero_absorbing_none by assumption. reflexivity.
Qed.

Lemma zero_absorbing_length q (flags : list bool) :
  length flags = length q -> length (zero_absorbing q flags) = length q.
Proof. intros Hlen. unfold zero_absorbing. rewrite length_zip_with. lia. Qed.

Lemma zero_absorbing_nonempty q (flags : list bool) :
  Forall (fun row => row <> []) q ->
  Forall (fun row => row <> []) (zero_absorbing q flags).
Proof.
  unfold zero_absorbing. intros HF. revert flags.
  induction HF as [|row q Hrow _ IH]; intros [|b flags]; simpl; try constructor.
  - destruct b; [|exact Hrow]. destruct row; [congruence | discriminate].
  - apply IH.
Qed.

Lemma omap_list_Forall2 {A B : Type} (f : A -> outcome B) (P : A -> B -> Prop)
    (l : list A) :
  Forall (fun x => exists y, f x = Ret y /\ P x y) l ->
  exists ys, omap_list f l = Ret ys /\ Forall2 P l ys.
Proof.
  induction 1 as [|x l (y & Hy & HP) _ (ys & Hys & HF)]; simpl.
  - exists []. split; [reflexivity | constructor].
  - rewrite Hy, Hys. simpl. exists (y :: ys). split; [reflexivity|].
    constructor; assumption.
Qed.

Lemma np_random_choice_lookup {A : Type} (l : list A) draw a :
  l !! draw = Some a -> np_random_choice draw l = Ret a.
Proof.
  intros Ha. unfold np_random_choice. rewrite Ha.
  destruct l; [discriminate | reflexivity].
Qed.


(** An empty batch has no first row for the tie-break to read. *)
Lemma max_QA_empty_batch {S : Type} (states : S) (approx : approximator S) (draw : nat) :
  predict_all approx states = [] ->
  max_QA states [] approx draw = Raise IndexError.
Proof. intros Hq. unfold max_QA. rewrite Hq. reflexivity. Qed.

End MaxQA.
End DatasetFacts.

(** ** The Ornstein-Uhlenbeck policy *)

Module OrnsteinUhlenbeckFacts.
Import OrnsteinUhlenbeckPolicy.
Section Recurrence.
Context {num tensor : Type} `{Numeric num} `{TensorOps num tensor}.
Variable sqrt : num -> num.
Implicit Types (self : @t num tensor) (state policy_state noise : tensor).

Lemma draw_action_eq self state policy_state noise :
  draw_action sqrt self state policy_state noise
  = (tadd (predict (_approximator self) state)
          (ou_next sqrt (_theta self) (_dt self) (_sigma self) policy_state noise),
     ou_next sqrt (_theta self) (_dt self) (_sigma self) policy_state noise).
Proof. reflexivity. Qed.

Lemma rollout_states self policy_state (steps : list (tensor * tensor)) :
  map snd (rollout sqrt self policy_state steps)
  = ou_recurrence sqrt (_theta self) (_dt self) (_sigma self) policy_state
      (map snd steps).
Proof.
  revert policy_state. induction steps as [|[state noise] rest IH]; intros x; simpl.
  - reflexivity.
  - rewrite IH. reflexivity.
Qed.

Lemma rollout_actions self policy_state (steps : list (tensor * tensor)) :
  map fst (rollout sqrt self policy_state steps)
  = zip_with (fun state x => tadd (predict (_approximator self) state) x)
      (map fst steps)
      (ou_recurrence sqrt (_theta self) (_dt self) (_sigma self) policy_state
         (map snd steps)).
Proof.
  revert policy_state. induction steps as [|[state noise] rest IH]; intros x; simpl.
  - reflexivity.
  - rewrite IH. reflexivity.
Qed.

(** C9. [draw_action] returns [(mu + x_new, x_new)], [mu] being the
    approximator's prediction for the state and
    [x_new = policy_state - theta*policy_state*dt + sigma*sqrt(dt)*n] for
    the noise draw [n]; and a run of calls, each fed the policy state the
    previous one returned, produces the states of the recurrence
    [x_{t+1} = x_t - theta*x_t*dt + sigma*sqrt(dt)*noise_t] on the given
    noise sequence, every action being the prediction plus the new
    state. *)
Theorem ou_draw_action_spec self state policy_state noise
    (steps : list (tensor * tensor)) :
  let x_new := tadd (tsub policy_state
                          (scale_r (scale_l (_theta self) policy_state) (_dt self)))
                    (tmul (scale_r (_sigma self) (sqrt (_dt self))) noise) in
  draw_action sqrt self state policy_state noise
  = (tadd (predict (_approximator self) state) x_new, x_new)
  /\ map snd (rollout sqrt self policy_state steps)
     = ou_recurrence sqrt (_theta self) (_dt self) (_sigma self) policy_state
         (map snd steps)
  /\ map fst (rollout sqrt self policy_state steps)
     = zip_with (fun state x => tadd (predict (_approximator self) state) x)
         (map fst steps) (map snd (rollout sqrt self policy_state steps)).
Proof.
  intros x_new. split; [reflexivity|]. split.
  - apply rollout_states.
  - rewrite rollout_actions, rollout_states. reflexivity.
Qed.

End Recurrence.
End OrnsteinUhlenbeckFacts.

(** ** The clipped Gaussian policy *)

Module ClippedGaussianFacts.
Import ClippedGaussianPolicy.
Section Drawing.
Context {num : Type} `{Numeric num}.
Variables tanh sigmoid : num -> num.
Implicit Types (self : @t num) (state u eps mu : @vec num).

(** The squashing assignment always fits: tanh keeps the length of the
    slice. *)
Lemma squash_returns self mu :
  (if _squash_actions self then
     assign_from (- _continuous_action_dims self) mu
       (map tanh (slice_from (- _continuous_action_dims self) mu))
   else Ret mu)
  = Ret (squashed tanh self mu).
Proof.
  unfold squashed. destruct (_squash_actions self); [|reflexivity].
  unfold assign_from, slice_from, slice_to.
  rewrite decide_True by (rewrite length_map, length_drop; reflexivity).
  reflexivity.
Qed.

(** With discrete components, the stochastic mode clips
    [[sigmoid(mu[:d]), sample]]. *)
Lemma draw_action_with_discrete self state u eps :
  _draw_random_act self = false ->
  _draw_deterministic self = false ->
  _normalize_states self = false ->
  (0 < _discrete_action_dims self)%Z ->
  draw_action tanh sigmoid self state u eps
  = let mu := squashed tanh self (predict (_approximator self) state) in
    let* sample :=
      mvn_sample (slice_from (- _continuous_action_dims self) mu) (_chol_sigma self) eps in
    let* action :=
      torch_clip (map sigmoid (slice_to (_discrete_action_dims self) mu) ++ sample)
        (_low self) (_high self) in
    Ret (action, None).
Proof.
  intros Hr Hd Hn Hpos. unfold draw_action. rewrite Hr, Hd, Hn. simpl obind.
  rewrite squash_returns. simpl obind.
  destruct (mvn_sample _ _ _) as [sample|e]; simpl; [|reflexivity].
  destruct (Z.ltb_spec 0 (_discrete_action_dims self)); [reflexivity | lia].
Qed.

(** C1, where the code departs from it.  Without discrete components the
    stochastic mode never returns an action: once the continuous sample is
    drawn, the final clip reads the local [action], which only the branch
    for [discrete_action_dims > 0] binds, and the call raises
    UnboundLocalError. *)
Theorem draw_action_without_discrete self state u eps :
  _draw_random_act self = false ->
  _draw_deterministic self = false ->
  _normalize_states self = false ->
  _discrete_action_dims self = 0%Z ->
  (1 <= _continuous_action_dims self)%Z ->
  let mu := squashed tanh self (predict (_approximator self) state) in
  (forall r, draw_action tanh sigmoid self state u eps <> Ret r)
  /\ (returns (mvn_sample (slice_from (- _continuous_action_dims self) mu)
                 (_chol_sigma self) eps) ->
      draw_action tanh sigmoid self state u eps = Raise UnboundLocalError).
Proof.
  intros Hr Hd Hn H0 Hc mu. unfold draw_action. rewrite Hr, Hd, Hn. simpl obind.
  rewrite squash_returns. simpl obind. fold mu. rewrite H0. simpl.
  destruct (mvn_sample _ _ _) as [sample|e]; simpl.
  - split; [discriminate | reflexivity].
  - split; [discriminate|]. intros [a Ha]. discriminate.
Qed.

(** The deterministic path ends in the same read of [action]. *)
Lemma draw_deterministic_action_without_discrete self state :
  _normalize_states self = false ->
  (_discrete_action_dims self <= 0)%Z ->
  draw_deterministic_action tanh sigmoid self state = Raise UnboundLocalError.
Proof.
  intros Hn H0. unfold draw_deterministic_action. rewrite Hn. simpl obind.
  rewrite squash_returns. simpl obind.
  destruct (Z.ltb_spec 0 (_discrete_action_dims self)); [lia | reflexivity].
Qed.

(** C2, as the code has it.  When normalisation is requested and
    [states_mean] was never set, [draw_deterministic_action] and, unless
    the policy draws random actions, [draw_action] fail with the
    ValueError that reports the missing configuration. *)
Theorem normalization_without_mean self state u eps :
  _normalize_states self = true ->
  _states_mean self = None ->
  (_draw_random_act self = false ->
     draw_action tanh sigmoid self state u eps = Raise ValueError)
  /\ draw_deterministic_action tanh sigmoid self state = Raise ValueError.
Proof.
  intros Hn Hm.
  assert (Hdet : draw_deterministic_action tanh sigmoid self state = Raise ValueError).
  { unfold draw_deterministic_action. rewrite Hn, Hm. reflexivity. }
  split; [|exact Hdet].
  intros Hr. unfold draw_action. rewrite Hr.
  destruct (_draw_deterministic self); [exact Hdet|].
  rewrite Hn, Hm. reflexivity.
Qed.

(** The check looks at the mean only: with the mean set and the standard
    deviation missing, the division by None fails first. *)
Lemma normalization_without_std self state u eps mean :
  _normalize_states self = true ->
  _states_mean self = Some mean ->
  _states_std self = None ->
  length state = length mean ->
  (_draw_random_act self = false ->
     draw_action tanh sigmoid self state u eps = Raise TypeError)
  /\ draw_deterministic_action tanh sigmoid self state = Raise TypeError.
Proof.
  intros Hn Hm Hs Hlen.
  assert (Hdet : draw_deterministic_action tanh sigmoid self state = Raise TypeError).
  { unfold draw_deterministic_action. rewrite Hn, Hm, Hs. unfold broadcast2.
    rewrite decide_True by exact Hlen. reflexivity. }
  split; [|exact Hdet].
  intros Hr. unfold draw_action. rewrite Hr.
  destruct (_draw_deterministic self); [exact Hdet|].
  rewrite Hn, Hm, Hs. unfold broadcast2.
  rewrite decide_True by exact Hlen. reflexivity.
Qed.

End Drawing.
End ClippedGaussianFacts.

(** * Further properties of the dataset utilities *)

Module DatasetExtras.
Import Dataset DatasetFacts.

Section Growing.
Context {num : Type} `{Numeric num}.
Implicit Types (dataset more tl : list (@transition num)) (gamma : num).

(** The returns already written are never touched again: a longer list of
    returns in front only travels along. *)
Lemma compute_J_loop_frame gamma dataset js0 js j k :
  fold_left (compute_J_round gamma) dataset (Ret (js0 ++ js, j, k))
  = let* st := fold_left (compute_J_round gamma) dataset (Ret (js, j, k)) in
    Ret (js0 ++ st.1.1, st.1.2, st.2).
Proof.
  revert js j k. induction dataset as [|tr rest IH]; intros js j k; simpl.
  - reflexivity.
  - destruct (fpow gamma k) as [power|e]; simpl.
    + destruct (last tr).
      * rewrite <- app_assoc. apply IH.
      * apply IH.
    + rewrite (compute_J_rounds_raise gamma rest e). reflexivity.
Qed.

Lemma compute_J_loop_count gamma dataset js j k st :
  fold_left (compute_J_round gamma) dataset (Ret (js, j, k)) = Ret st ->
  length st.1.1 = length js + length (List.filter last dataset).
Proof.
  revert js j k. induction dataset as [|tr rest IH]; intros js j k; simpl.
  - intros [= <-]. simpl. lia.
  - destruct (fpow gamma k) as [power|e]; simpl.
    + destruct (last tr); intros Hst; apply IH in Hst; rewrite Hst;
        rewrite ?length_app; simpl; lia.
    + rewrite (compute_J_rounds_raise gamma rest e). discriminate.
Qed.

(** X1. Feeding [compute_J] more transitions only appends returns:
    whenever [compute_J] returns on the extended dataset, it returns on
    [dataset] too, its returns stay in front, and as many are added as
    there are [last] flags among the new transitions (none while the
    running episode stays unfinished). *)
Theorem compute_J_grows dataset more gamma js' :
  compute_J (dataset ++ more) gamma = Ret js' ->
  exists js new_js,
    compute_J dataset gamma = Ret js
    /\ js' = js ++ new_js
    /\ length new_js = length (List.filter last more).
Proof.
  rewrite !compute_J_fold, fold_left_app.
  destruct (fold_left (compute_J_round gamma) dataset (Ret ([], f0, 0)))
    as [[[js j] k]|e]; [|rewrite (compute_J_rounds_raise gamma more e); discriminate].
  pose proof (compute_J_loop_frame gamma more js [] j k) as HF.
  rewrite app_nil_r in HF. unfold J_state in *. rewrite HF. clear HF.
  match goal with
  | |- context [@fold_left ?A ?B ?f more ?s] =>
      destruct (@fold_left A B f more s) as [st|e] eqn:Est
  end; simpl; [|discriminate].
  intros [= <-]. exists js; exists st.1.1. split; [reflexivity|].
  split; [reflexivity|]. apply compute_J_loop_count in Est. simpl in Est. exact Est.
Qed.

(** After a [last] transition the loop is back in its initial state. *)
Lemma compute_J_loop_boundary gamma dataset tr st :
  last tr = true ->
  fold_left (compute_J_round gamma) (dataset ++ [tr]) (Ret ([], f0, 0)) = Ret st ->
  st = (st.1.1, f0, 0).
Proof.
  intros Hl. rewrite fold_left_app. simpl.
  destruct (fold_left (compute_J_round gamma) dataset (Ret ([], f0, 0)))
    as [[[js j] k]|e]; simpl; [|discriminate].
  destruct (fpow gamma k); simpl; [|discriminate].
  rewrite Hl. intros [= <-]. reflexivity.
Qed.

Lemma compute_J_splits dataset tr more gamma :
  last tr = true ->
  compute_J ((dataset ++ [tr]) ++ more) gamma
  = let* a := compute_J (dataset ++ [tr]) gamma in
    let* b := compute_J more gamma in
    Ret (a ++ b).
Proof.
  intros Hl. rewrite !compute_J_fold, (fold_left_app _ (dataset ++ [tr])).
  destruct (fold_left (compute_J_round gamma) (dataset ++ [tr]) (Ret ([], f0, 0)))
    as [st|e] eqn:Est; simpl.
  - rewrite (compute_J_loop_boundary _ _ _ _ Hl Est). simpl.
    pose proof (compute_J_loop_frame gamma more st.1.1 [] f0 0) as HF.
    rewrite app_nil_r in HF. unfold J_state in *. rewrite HF.
    match goal with
    | |- context [@fold_left ?A ?B ?f more ?s] =>
        destruct (@fold_left A B f more s)
    end; reflexivity.
  - rewrite (compute_J_rounds_raise gamma more e). reflexivity.
Qed.

(** X2. At an episode boundary the returns split: the returns of a dataset
    that ends with a [last] transition, followed by more transitions, are
    the returns of the two parts one after the other, and the call raises
    what the first part that raises does. *)
Theorem compute_J_app_at_boundary dataset tr more gamma :
  last tr = true ->
  compute_J ((dataset ++ [tr]) ++ more) gamma
  = let* a := compute_J (dataset ++ [tr]) gamma in
    let* b := compute_J more gamma in
    Ret (a ++ b).
Proof. apply compute_J_splits. Qed.

(** *** Scores *)

Lemma compute_scores_loop_count dataset (scores : list num) score k n :
  let st := fold_left compute_scores_step dataset (scores, score, k, n) in
  length st.1.1.1 = length scores + length (List.filter last dataset)
  /\ st.2 = n + length (List.filter last dataset).
Proof.
  revert scores score k n.
  induction dataset as [|tr rest IH]; intros scores score k n; simpl.
  - lia.
  - destruct (last tr).
    + destruct (IH (scores ++ [fadd score (reward tr)]) f0 0 (n + 1)) as [H1 H2].
      simpl in *. rewrite H1, H2, length_app. simpl. lia.
    + apply IH.
Qed.

(** X3. [compute_scores] never raises, and the count it returns is the
    number of [last] flags of the dataset, in the sentinel case too. *)
Theorem compute_scores_counts_last dataset :
  exists mn mx me,
    compute_scores dataset = Ret (mn, mx, me, length (List.filter last dataset)).
Proof.
  rewrite compute_scores_fold.
  pose proof (compute_scores_loop_count dataset [] f0 0 0) as [Hlen Hn].
  destruct (fold_left compute_scores_step dataset ([], f0, 0, 0))
    as [[[scores score] k] n].
  simpl in Hlen, Hn. subst n.
  destruct scores as [|s scores]; simpl in *.
  - rewrite <- Hlen. eexists _, _, _. reflexivity.
  - eexists _, _, _. reflexivity.
Qed.

Lemma compute_scores_loop_tail tl (scores : list num) score k n :
  Forall (fun tr => last tr = false) tl ->
  exists score' k',
    fold_left compute_scores_step tl (scores, score, k, n) = (scores, score', k', n).
Proof.
  intros HF. revert score k.
  induction HF as [|tr tl Hl _ IH]; intros score k; simpl.
  - eexists _, _. reflexivity.
  - rewrite Hl. apply IH.
Qed.

(** X4. Steps of an episode that has not ended yet do not show in the
    scores: appending transitions without a [last] flag leaves
    [compute_scores] as it was. *)
Theorem compute_scores_ignores_unfinished dataset tl :
  Forall (fun tr => last tr = false) tl ->
  compute_scores (dataset ++ tl) = compute_scores dataset.
Proof.
  intros HF. rewrite !compute_scores_fold, fold_left_app.
  destruct (fold_left compute_scores_step dataset ([], f0, 0, 0))
    as [[[scores score] k] n].
  destruct (compute_scores_loop_tail tl scores score k n HF) as (score' & k' & ->).
  reflexivity.
Qed.

End Growing.
Section Selecting.
Context {num : Type} `{Numeric num}.
Variable np_broadcast : list nat -> @tensor num -> outcome (@tensor num).
Implicit Types (dataset sub : list (@transition num)) (gamma : num).

(** What [select_episodes] does in range, for either value of [parse]:
    [k] is the position of the [n_episodes]-th [last] transition. *)
Lemma select_episodes_in_range dataset (n_episodes : Z) (parse : bool) :
  (1 <= n_episodes <= Z.of_nat (length (List.filter last dataset)))%Z ->
  exists k tr,
    dataset !! k = Some tr /\ last tr = true
    /\ length (List.filter last (take k dataset)) = Z.to_nat n_episodes - 1
    /\ take (S k) dataset = concat (take (Z.to_nat n_episodes) (episodes dataset))
    /\ select_episodes np_broadcast dataset n_episodes parse
       = if parse
         then let* p := parse_dataset np_broadcast (take (S k) dataset) in Ret (Parsed p)
         else Ret (Sub (np_array (take (S k) dataset))).
Proof.
  intros Hn. unfold select_episodes.
  destruct (Z.ltb_spec n_episodes 0); [lia|].
  destruct (Z.eqb_spec n_episodes 0); [lia|].
  destruct dataset as [|tr0 rest] eqn:Hd; [simpl in Hn; lia|].
  rewrite <- Hd in *. clear Hd tr0 rest.
  destruct (np_argwhere (map last dataset) !! Z.to_nat (n_episodes - 1))
    as [k|] eqn:Hk.
  - unfold np_argwhere in Hk.
    destruct (argwhere_from_lookup _ _ _ _ Hk) as (p & -> & Hp & Hc).
    simpl in *. rewrite list_lookup_fmap in Hp.
    destruct (dataset !! p) as [tr|] eqn:Htr; [|discriminate].
    simpl in Hp. injection Hp as Hl. rewrite firstn_map in Hc.
    assert (Hc' : length (List.filter last (take p dataset))
                  = Z.to_nat n_episodes - 1).
    { rewrite <- (length_map last), <- filter_id_map_last, Hc. lia. }
    exists p; exists tr. repeat split; try assumption.
    + pose proof (take_through_last dataset [] p _ tr Htr Hl Hc') as HT.
      simpl in HT. rewrite <- HT. unfold episodes.
      replace (S (Z.to_nat n_episodes - 1)) with (Z.to_nat n_episodes) by lia.
      reflexivity.
    + rewrite Nat.add_1_r. reflexivity.
  - apply lookup_ge_None in Hk. unfold np_argwhere in Hk.
    rewrite argwhere_from_length, filter_id_map_last, length_map in Hk. lia.
Qed.

(** X5. Out of range, [select_episodes] raises: AssertionError for a
    negative count, IndexError when more episodes are asked for than the
    dataset has [last] flags (an empty dataset included), whatever
    [parse]. *)
Theorem select_episodes_out_of_range dataset (n_episodes : Z) (parse : bool) :
  ~ (0 <= n_episodes <= Z.of_nat (length (List.filter last dataset)))%Z ->
  select_episodes np_broadcast dataset n_episodes parse
  = Raise (if (n_episodes <? 0)%Z then AssertionError else IndexError).
Proof.
  intros Hn. unfold select_episodes.
  destruct (Z.ltb_spec n_episodes 0); [reflexivity|].
  destruct (Z.eqb_spec n_episodes 0); [lia|].
  destruct dataset as [|tr0 rest] eqn:Hd; [reflexivity|].
  rewrite <- Hd in *. clear Hd tr0 rest.
  destruct (np_argwhere (map last dataset) !! Z.to_nat (n_episodes - 1))
    as [k|] eqn:Hk; [|reflexivity].
  apply lookup_lt_Some in Hk. unfold np_argwhere in Hk.
  rewrite argwhere_from_length, filter_id_map_last, length_map in Hk. lia.
Qed.

(** X6. With [parse=True] and a count in range, [select_episodes] returns
    the six columns of the first [n_episodes] episodes, provided the
    transitions have the shapes of the first one; asked for no episode it
    returns the bare array [[[]]] all the same, not six arrays. *)
Theorem select_episodes_parsed dataset tr0 (n_episodes : Z) :
  (0 <= n_episodes <= Z.of_nat (length (List.filter last dataset)))%Z ->
  dataset !! 0 = Some tr0 ->
  Forall (same_shapes tr0) dataset ->
  select_episodes np_broadcast dataset n_episodes true
  = if (n_episodes =? 0)%Z then Ret (Sub [[]])
    else Ret (Parsed (columns (concat (take (Z.to_nat n_episodes) (episodes dataset))))).
Proof.
  intros Hn H0 Hsh. destruct (Z.eqb_spec n_episodes 0) as [->|Hne].
  - reflexivity.
  - destruct (select_episodes_in_range dataset n_episodes true)
      as (k & tr & Hk & Hl & Hc & Htake & ->); [lia|].
    rewrite (parse_dataset_columns np_broadcast (take (S k) dataset) tr0).
    + simpl. rewrite Htake. reflexivity.
    + rewrite lookup_take_lt by lia. exact H0.
    + apply Forall_take. exact Hsh.
Qed.

(** X7. Asking for more episodes extends the selection: the rows selected
    for [n] episodes are the first rows of those selected for [m >= n]. *)
Theorem select_episodes_nested dataset (n m : Z) :
  (1 <= n <= m)%Z ->
  (m <= Z.of_nat (length (List.filter last dataset)))%Z ->
  exists a_n a_m,
    select_episodes np_broadcast dataset n false = Ret (Sub a_n)
    /\ select_episodes np_broadcast dataset m false = Ret (Sub a_m)
    /\ a_n `prefix_of` a_m.
Proof.
  intros Hnm Hm.
  destruct (select_episodes_in_range dataset n false)
    as (k & tr & _ & _ & _ & Hn & ->); [lia|].
  destruct (select_episodes_in_range dataset m false)
    as (k' & tr' & _ & _ & _ & Hm' & ->); [lia|].
  eexists _, _. split; [reflexivity|]. split; [reflexivity|].
  rewrite Hn, Hm'. unfold np_array.
  exists (map row_of (concat (drop (Z.to_nat n) (take (Z.to_nat m) (episodes dataset))))).
  rewrite <- map_app, <- concat_app. do 2 f_equal.
  rewrite <- (take_drop (Z.to_nat n) (take (Z.to_nat m) (episodes dataset))) at 1.
  f_equal. rewrite take_take. f_equal. lia.
Qed.

(** X8. Selecting as many episodes as the dataset has completed returns
    the dataset without its unfinished tail, the whole dataset when it ends
    with a [last] transition. *)
Theorem select_episodes_all dataset :
  1 <= length (List.filter last dataset) ->
  exists sub,
    select_episodes np_broadcast dataset
      (Z.of_nat (length (List.filter last dataset))) false
    = Ret (Sub (np_array sub))
    /\ sub ++ trailing dataset = dataset.
Proof.
  intros Hc.
  destruct (select_episodes_in_range dataset
              (Z.of_nat (length (List.filter last dataset))) false)
    as (k & tr & _ & _ & _ & Htake & ->); [lia|].
  exists (take (S k) dataset). split; [reflexivity|].
  rewrite Htake, Nat2Z.id.
  rewrite take_ge by (unfold episodes; rewrite split_episodes_count; lia).
  apply (split_episodes_concat dataset []).
Qed.

(** X9. Selection and returns commute: for
    [1 <= n_episodes <= ] the number of completed episodes,
    [select_episodes] returns a prefix [sub] of the dataset; whenever
    [compute_J] returns on the whole dataset, it returns on [sub] the first
    [n_episodes] of those returns, and what it raises on [sub] it raises on
    the whole dataset. *)
Theorem compute_J_of_selected dataset (n_episodes : Z) gamma :
  (1 <= n_episodes <= Z.of_nat (length (List.filter last dataset)))%Z ->
  exists sub,
    select_episodes np_broadcast dataset n_episodes false = Ret (Sub (np_array sub))
    /\ (forall js, compute_J dataset gamma = Ret js ->
          compute_J sub gamma = Ret (take (Z.to_nat n_episodes) js))
    /\ (forall e, compute_J sub gamma = Raise e ->
          compute_J dataset gamma = Raise e).
Proof.
  intros Hn.
  destruct (select_episodes_in_range dataset n_episodes false Hn)
    as (k & tr & Hk & Hl & Hc & _ & ->).
  exists (take (S k) dataset). split; [reflexivity|].
  assert (HS : compute_J dataset gamma
               = let* a := compute_J (take (S k) dataset) gamma in
                 let* b := compute_J (drop (S k) dataset) gamma in
                 Ret (a ++ b)).
  { rewrite <- (take_drop (S k) dataset) at 1.
    rewrite (take_S_r _ _ _ Hk). apply compute_J_splits, Hl. }
  rewrite HS. clear HS.
  destruct (compute_J (take (S k) dataset) gamma) as [a|e] eqn:Ea; simpl.
  - split; [|discriminate].
    destruct (compute_J (drop (S k) dataset) gamma) as [b|e]; simpl; [|discriminate].
    intros js [= <-]. f_equal. symmetry. apply take_app_length'.
    rewrite (compute_J_length _ _ _ Ea), (take_S_r _ _ _ Hk), List.filter_app, length_app.
    simpl. rewrite Hl. simpl. lia.
  - split; [discriminate|]. intros e' [= <-]. reflexivity.
Qed.

(** *** Samples *)

Lemma same_shapes_trans (tr0 tr1 tr : @transition num) :
  same_shapes tr0 tr1 -> same_shapes tr0 tr -> same_shapes tr1 tr.
Proof. unfold same_shapes. intros (-> & -> & ->) (-> & -> & ->). auto. Qed.

(** X10. With [parse=True], a positive count and a draw of positions in
    range, [select_samples] returns the six columns of the drawn
    transitions, in draw order, provided the transitions of the dataset
    have the shapes of the first one. *)
Theorem select_samples_parsed dataset tr0 (n_samples : Z) (idxs : list nat) :
  (1 <= n_samples)%Z ->
  length idxs = Z.to_nat n_samples ->
  Forall (fun i => i < length dataset) idxs ->
  dataset !! 0 = Some tr0 ->
  Forall (same_shapes tr0) dataset ->
  exists sub,
    Forall2 (fun i tr => dataset !! i = Some tr) idxs sub
    /\ select_samples np_broadcast dataset n_samples true idxs
       = Ret (Parsed (columns sub)).
Proof.
  intros Hn Hlen Hidx H0 Hsh. unfold select_samples.
  destruct (Z.ltb_spec n_samples 0); [lia|].
  destruct (Z.eqb_spec n_samples 0); [lia|].
  destruct dataset as [|t rest] eqn:Hd; [discriminate|].
  rewrite <- Hd in *. clear Hd t rest.
  destruct (gather_rows dataset idxs Hidx) as (sub & -> & HF). simpl.
  exists sub. split; [exact HF|].
  assert (Hall : Forall (same_shapes tr0) sub).
  { clear -HF Hsh. rewrite Forall_lookup in Hsh.
    induction HF as [|i tr idxs sub Hi _ IH]; constructor; eauto. }
  destruct sub as [|tr1 sub'] eqn:Hs.
  { apply Forall2_length in HF. simpl in HF. lia. }
  rewrite <- Hs in *.
  rewrite (parse_dataset_columns np_broadcast sub tr1).
  - reflexivity.
  - rewrite Hs. reflexivity.
  - assert (Hs1 : same_shapes tr0 tr1) by (rewrite Hs in Hall; inversion Hall; assumption).
    eapply Forall_impl; [exact Hall|]. intros tr Htr. simpl.
    eapply same_shapes_trans; eauto.
Qed.

(** *** Parsing, whatever numpy does with the shapes *)

Lemma set_row_length shp i (v : @tensor num) arr arr' :
  set_row np_broadcast shp i v arr = Ret arr' -> length arr' = length arr.
Proof.
  unfold set_row. destruct (if decide (shape v = shp) then _ else _); simpl;
    [|discriminate].
  intros [= <-]. apply length_insert.
Qed.

Lemma parse_dataset_loop_scalars dataset shp_s shp_a shp_n k :
  k <= length dataset ->
  let n := length dataset in
  forall state_ action_ reward_ next_state_ absorbing_ last_,
    for_range k (parse_dataset_step np_broadcast dataset shp_s shp_a shp_n)
      (Ret (replicate n (np_ones shp_s), replicate n (np_ones shp_a),
            replicate n f1, replicate n (np_ones shp_n),
            replicate n f1, replicate n f1))
    = Ret (state_, action_, reward_, next_state_, absorbing_, last_) ->
    length state_ = n /\ length action_ = n /\ length next_state_ = n
    /\ reward_ = take k (map reward dataset) ++ replicate (n - k) f1
    /\ absorbing_ = take k (map (fun tr => of_bool (absorbing tr)) dataset)
                    ++ replicate (n - k) f1
    /\ last_ = take k (map (fun tr => of_bool (last tr)) dataset)
               ++ replicate (n - k) f1.
Proof.
  intros Hk n. induction k as [|k IH]; intros S A R NS AB L Hret.
  - unfold for_range in Hret. simpl in Hret. injection Hret as <- <- <- <- <- <-.
    rewrite !length_replicate, Nat.sub_0_r. repeat split; reflexivity.
  - rewrite for_range_succ in Hret.
    destruct (for_range k _ _) as [[[[[[S' A'] R'] NS'] AB'] L']|e];
      [|discriminate].
    destruct (IH ltac:(lia) _ _ _ _ _ _ eq_refl) as (HS & HA & HNS & -> & -> & ->).
    clear IH. unfold parse_dataset_step in Hret. simpl in Hret.
    destruct (lookup_lt_is_Some_2 dataset k ltac:(lia)) as [tr Htr].
    rewrite Htr in Hret.
    destruct (set_row _ _ _ (state tr) S') as [S1|] eqn:ES; simpl in Hret; [|discriminate].
    destruct (set_row _ _ _ (action tr) A') as [A1|] eqn:EA; simpl in Hret; [|discriminate].
    destruct (set_row _ _ _ (next_state tr) NS') as [NS1|] eqn:EN; simpl in Hret;
      [|discriminate].
    injection Hret as <- <- <- <- <- <-.
    apply set_row_length in ES, EA, EN.
    assert (HL : forall {A : Type} (f : @transition num -> A) d,
               <[k := f tr]> (take k (map f dataset) ++ replicate (length dataset - k) d)
               = take (S k) (map f dataset) ++ replicate (length dataset - S k) d).
    { intros B f d.
      pose proof (insert_take_replicate (map f dataset) k d (f tr)) as HI.
      rewrite length_map in HI. apply HI.
      change (map f dataset) with (f <$> dataset).
      rewrite list_lookup_fmap, Htr. reflexivity. }
    subst n. rewrite (HL _ reward).
    rewrite (HL _ (fun tr => of_bool (absorbing tr))).
    rewrite (HL _ (fun tr => of_bool (last tr))).
    repeat split; congruence.
Qed.

(** X11. Whenever [parse_dataset] returns, also after numpy has broadcast
    values of other shapes into the state arrays, the dataset was not
    empty, each of the six arrays has one row per transition, and the
    reward, absorbing and last arrays hold exactly the dataset's rewards and
    flags (as 1. and 0.), in order. *)
Theorem parse_dataset_scalar_columns dataset
    state_ action_ reward_ next_state_ absorbing_ last_ :
  parse_dataset np_broadcast dataset
  = Ret (state_, action_, reward_, next_state_, absorbing_, last_) ->
  dataset <> []
  /\ length state_ = length dataset
  /\ length action_ = length dataset
  /\ length next_state_ = length dataset
  /\ reward_ = map reward dataset
  /\ absorbing_ = map (fun tr => of_bool (absorbing tr)) dataset
  /\ last_ = map (fun tr => of_bool (last tr)) dataset.
Proof.
  unfold parse_dataset. destruct dataset as [|tr0 rest] eqn:Hd; [discriminate|].
  rewrite <- Hd. intros Hret. split; [congruence|].
  destruct (parse_dataset_loop_scalars dataset _ _ _ (length dataset) (le_n _)
              _ _ _ _ _ _ Hret) as (HS & HA & HN & HR & HAB & HL).
  rewrite Nat.sub_diag in HR, HAB, HL. simpl in HR, HAB, HL.
  rewrite app_nil_r, take_ge in HR, HAB, HL by (rewrite length_map; lia).
  repeat split; assumption.
Qed.

End Selecting.
Section Extrema.
Context {num : Type} `{NumericLaws num}.
Implicit Types (dataset : list (@transition num)).


End Extrema.

Section Greedy.
Context {num : Type} `{NumericLaws num}.
Implicit Types (row : list num) (q : list (list num)).

Lemma imul_column_length q col q' :
  imul_column q col = Ret q' -> length q' = length q.
Proof.
  unfold imul_column. destruct (decide (length col = length q)) as [E|E].
  - intros [= <-]. rewrite length_zip_with. lia.
  - destruct col as [|c [|c' col]]; try discriminate.
    intros [= <-]. apply length_map.
Qed.

(** X13. An empty batch is no input for [max_QA]: whatever the flags and
    the tie-break draw, the call raises. *)
Theorem max_QA_empty_batch_raises {S : Type} (states : S) (absorbing_ : list num)
    (approx : approximator S) (draw : nat) :
  predict_all approx states = [] ->
  forall r, max_QA states absorbing_ approx draw <> Ret r.
Proof.
  intros Hq r. unfold max_QA. rewrite Hq.
  destruct (np_any absorbing_).
  - destruct (imul_column [] _) as [q'|e] eqn:E; simpl; [|discriminate].
    apply imul_column_length in E. destruct q'; [|discriminate]. discriminate.
  - discriminate.
Qed.

(** X14. With more than one state in the batch [max_QA] is deterministic:
    the tie-break draw is not looked at. *)
Theorem max_QA_batch_ignores_draw {S : Type} (states : S) (absorbing_ : list num)
    (approx : approximator S) (draw1 draw2 : nat) :
  1 < length (predict_all approx states) ->
  max_QA states absorbing_ approx draw1 = max_QA states absorbing_ approx draw2.
Proof.
  intros Hlen. unfold max_QA.
  assert (Hq : forall q', (if np_any absorbing_
                           then imul_column (predict_all approx states)
                                  (map (fun a => fsub f1 a) absorbing_)
                           else Ret (predict_all approx states)) = Ret q' ->
                          length q' = length (predict_all approx states)).
  { intros q'. destruct (np_any absorbing_).
    - apply imul_column_length.
    - intros [= <-]. reflexivity. }
  destruct (if np_any absorbing_ then _ else _) as [q'|e]; simpl; [|reflexivity].
  specialize (Hq q' eq_refl).
  destruct (omap_list np_max q') as [max_q|e]; simpl; [|reflexivity].
  destruct (Nat.ltb_spec 1 (length q')); [reflexivity | lia].
Qed.

(** The maximum of a row of zeros is zero, first found at position 0. *)
Lemma zero_row_max row m :
  row <> [] -> is_max (map (fun _ => f0) row) m -> m = f0.
Proof.
  intros _ [Hin _]. apply in_map_iff in Hin. destruct Hin as (_ & <- & _). reflexivity.
Qed.

Lemma zero_row_first_argmax row i :
  row <> [] -> first_argmax (map (fun _ => f0) row) i -> i = 0.
Proof.
  intros Hne [_ Hfirst]. destruct i as [|i]; [reflexivity|].
  exfalso. apply (Hfirst 0); [lia|].
  destruct row as [|x xs]; [congruence|].
  exists f0. split; [reflexivity|]. split; [left; reflexivity|].
  apply Forall_forall. intros y Hy. apply list_elem_of_In, in_map_iff in Hy.
  destruct Hy as (_ & <- & _). apply fle_refl.
Qed.


End Greedy.
End DatasetExtras.

(** * Further properties of the clipped Gaussian policy *)

Module ClippedGaussianExtras.
Import ClippedGaussianPolicy ClippedGaussianFacts.

(** Reading a successful sequence of calls backwards. *)
Ltac invert_binds H :=
  repeat match type of H with
         | obind ?m _ = Ret _ =>
             let E := fresh "E" in
             destruct m eqn:E; simpl in H; [|discriminate H]
         | match ?m with Ret _ => _ | Raise _ => _ end = Ret _ =>
             let E := fresh "E" in
             destruct m eqn:E; simpl in H; [|discriminate H]
         end.

Section Modes.
Context {num : Type} `{Numeric num}.
Variables tanh sigmoid : num -> num.
Implicit Types (self : @t num) (state u eps mu a : @vec num).

(** Whatever the deterministic path returns went through the final clip. *)
Lemma deterministic_returns_clipped self state a ps :
  draw_deterministic_action tanh sigmoid self state = Ret (a, ps) ->
  ps = None /\ exists v, torch_clip v (_low self) (_high self) = Ret a.
Proof.
  unfold draw_deterministic_action. intros Hret.
  invert_binds Hret.
  destruct (0 <? _discrete_action_dims self)%Z; [|discriminate].
  invert_binds Hret. injection Hret as <- <-.
  split; [reflexivity|]. eexists. eassumption.
Qed.

Lemma nonrandom_returns_clipped self state u eps a ps :
  _draw_random_act self = false ->
  draw_action tanh sigmoid self state u eps = Ret (a, ps) ->
  ps = None /\ exists v, torch_clip v (_low self) (_high self) = Ret a.
Proof.
  unfold draw_action. intros -> Hret.
  destruct (_draw_deterministic self).
  - eapply deterministic_returns_clipped; eauto.
  - invert_binds Hret.
    destruct (0 <? _discrete_action_dims self)%Z; [|discriminate].
    invert_binds Hret. injection Hret as <- <-.
    split; [reflexivity|]. eexists. eassumption.
Qed.

(** X16. The policy threads no state: in each of its three modes, whatever
    [draw_action] returns comes with the policy state None, and so does
    what [draw_deterministic_action] and [draw_random_action] return. *)
Theorem policy_state_is_None self state u eps a ps :
  (draw_action tanh sigmoid self state u eps = Ret (a, ps)
   \/ draw_deterministic_action tanh sigmoid self state = Ret (a, ps)
   \/ draw_random_action self u = Ret (a, ps)) ->
  ps = None.
Proof.
  assert (Hrand : draw_random_action self u = Ret (a, ps) -> ps = None).
  { unfold draw_random_action. intros Hret. invert_binds Hret.
    injection Hret as <- <-. reflexivity. }
  intros [Hret|[Hret|Hret]].
  - destruct (_draw_random_act self) eqn:Hr.
    + unfold draw_action in Hret. rewrite Hr in Hret. auto.
    + eapply nonrandom_returns_clipped; eauto.
  - eapply deterministic_returns_clipped; eauto.
  - auto.
Qed.

(** X17. Without discrete components no action comes out of the policy
    outside its random mode: with [discrete_action_dims <= 0], in every
    configuration of squashing and normalisation, neither [draw_action]
    (stochastic or deterministic mode) nor [draw_deterministic_action]
    ever returns; with normalisation off the deterministic path raises
    UnboundLocalError. *)
Theorem no_action_without_discrete self state u eps :
  (_discrete_action_dims self <= 0)%Z ->
  (forall r, draw_deterministic_action tanh sigmoid self state <> Ret r)
  /\ (_draw_random_act self = false ->
        forall r, draw_action tanh sigmoid self state u eps <> Ret r)
  /\ (_normalize_states self = false ->
        draw_deterministic_action tanh sigmoid self state = Raise UnboundLocalError).
Proof.
  intros Hd.
  assert (Hlt : (0 <? _discrete_action_dims self)%Z = false) by (apply Z.ltb_ge; lia).
  assert (Hdet : forall r, draw_deterministic_action tanh sigmoid self state <> Ret r).
  { intros r Hret. unfold draw_deterministic_action in Hret.
    invert_binds Hret. rewrite Hlt in Hret. discriminate. }
  split; [exact Hdet|]. split.
  - intros Hr r Hret. unfold draw_action in Hret. rewrite Hr in Hret.
    destruct (_draw_deterministic self); [exact (Hdet r Hret)|].
    invert_binds Hret. rewrite Hlt in Hret. discriminate.
  - intros Hn. apply draw_deterministic_action_without_discrete; assumption.
Qed.

(** *** Slices of a mean of the declared size *)

Lemma slice_bound_back (n : nat) (d c : Z) :
  (0 <= d)%Z -> (1 <= c)%Z -> Z.of_nat n = (d + c)%Z ->
  slice_bound n (- c) = Z.to_nat d.
Proof.
  intros Hd Hc Hn. unfold slice_bound.
  destruct (Z.ltb_spec (- c) 0); lia.
Qed.

Lemma slice_bound_front (n : nat) (d c : Z) :
  (0 <= d)%Z -> (0 <= c)%Z -> Z.of_nat n = (d + c)%Z ->
  slice_bound n d = Z.to_nat d.
Proof.
  intros Hd Hc Hn. unfold slice_bound.
  destruct (Z.ltb_spec d 0); lia.
Qed.

Lemma squashed_length self mu : length (squashed tanh self mu) = length mu.
Proof.
  unfold squashed, slice_to, slice_from. destruct (_squash_actions self); [|reflexivity].
  rewrite length_app, length_map, length_take, length_drop. lia.
Qed.

(** On a mean of [d + c] entries squashing leaves the [d] logits alone and
    passes the [c] continuous entries through tanh. *)
Lemma squashed_parts self mu :
  (0 <= _discrete_action_dims self)%Z ->
  (1 <= _continuous_action_dims self)%Z ->
  Z.of_nat (length mu) = (_discrete_action_dims self + _continuous_action_dims self)%Z ->
  let d := Z.to_nat (_discrete_action_dims self) in
  slice_to (_discrete_action_dims self) (squashed tanh self mu) = take d mu
  /\ slice_from (- _continuous_action_dims self) (squashed tanh self mu)
     = if _squash_actions self then map tanh (drop d mu) else drop d mu.
Proof.
  intros Hd Hc Hn d.
  pose proof (slice_bound_back _ _ _ Hd Hc Hn) as Hb.
  pose proof (slice_bound_front _ _ (_continuous_action_dims self) Hd ltac:(lia) Hn) as Hf.
  assert (Hdn : d <= length mu) by lia.
  unfold slice_to, slice_from. rewrite squashed_length, Hb, Hf. fold d.
  unfold squashed, slice_to, slice_from. rewrite Hb. fold d.
  destruct (_squash_actions self); [|split; reflexivity].
  split.
  - rewrite take_app_length'; [reflexivity | rewrite length_take; lia].
  - rewrite drop_app_length'; [reflexivity | rewrite length_take; lia].
Qed.

Lemma deterministic_unfolded self state :
  _normalize_states self = false ->
  (0 < _discrete_action_dims self)%Z ->
  (1 <= _continuous_action_dims self)%Z ->
  Z.of_nat (length (predict (_approximator self) state))
  = (_discrete_action_dims self + _continuous_action_dims self)%Z ->
  draw_deterministic_action tanh sigmoid self state
  = let mu := predict (_approximator self) state in
    let d := Z.to_nat (_discrete_action_dims self) in
    let* a :=
      torch_clip (map sigmoid (take d mu)
                  ++ (if _squash_actions self then map tanh (drop d mu) else drop d mu))
        (_low self) (_high self) in
    Ret (a, None).
Proof.
  intros Hn Hd Hc Hlen. unfold draw_deterministic_action.
  rewrite Hn. simpl obind. rewrite squash_returns. simpl obind.
  destruct (squashed_parts self _ ltac:(lia) Hc Hlen) as [-> ->].
  destruct (Z.ltb_spec 0 (_discrete_action_dims self)); [reflexivity | lia].
Qed.

(** X18. On a mean of [d + c] entries, [d > 0] discrete and [c >= 1]
    continuous, and without normalisation, [draw_deterministic_action]
    returns the clip of the sigmoid of the first [d] entries followed by
    the last [c] entries, these passed through tanh when squashing is on:
    squashing never reaches the logits. *)
Theorem draw_deterministic_action_closed self state :
  _normalize_states self = false ->
  (0 < _discrete_action_dims self)%Z ->
  (1 <= _continuous_action_dims self)%Z ->
  Z.of_nat (length (predict (_approximator self) state))
  = (_discrete_action_dims self + _continuous_action_dims self)%Z ->
  draw_deterministic_action tanh sigmoid self state
  = let mu := predict (_approximator self) state in
    let d := Z.to_nat (_discrete_action_dims self) in
    let* a :=
      torch_clip (map sigmoid (take d mu)
                  ++ (if _squash_actions self then map tanh (drop d mu) else drop d mu))
        (_low self) (_high self) in
    Ret (a, None).
Proof. apply deterministic_unfolded. Qed.

Lemma torch_clip_within (v low high : @vec num) :
  length v = length low -> length low = length high ->
  Forall2 (fun l x => fle l x = true) low v ->
  Forall2 (fun x h => fle x h = true) v high ->
  torch_clip v low high = Ret v.
Proof.
  intros Hvl Hlh Hlo Hhi. unfold torch_clip, broadcast2.
  rewrite decide_True by exact Hvl. simpl.
  assert (Hw : zip_with fmax v low = v).
  { clear -Hlo. induction Hlo as [|l x low' v' Hlx _ IH]; simpl; [reflexivity|].
    rewrite IH. f_equal. unfold fmax. rewrite Hlx. reflexivity. }
  rewrite Hw. rewrite decide_True by lia. f_equal.
  clear -Hhi. induction Hhi as [|x h v' high' Hxh _ IH]; simpl; [reflexivity|].
  rewrite IH. f_equal. unfold fmin. rewrite Hxh. reflexivity.
Qed.

(** X19. A mean within the bounds is the deterministic action: on a mean of
    [d + c] entries, without normalisation, when the sigmoid of the [d]
    logits followed by the (squashed) [c] continuous entries lies, entry by
    entry, between [low] and [high], [draw_deterministic_action] returns
    exactly that vector. *)
Theorem deterministic_action_within_bounds self state :
  _normalize_states self = false ->
  (0 < _discrete_action_dims self)%Z ->
  (1 <= _continuous_action_dims self)%Z ->
  Z.of_nat (length (predict (_approximator self) state))
  = (_discrete_action_dims self + _continuous_action_dims self)%Z ->
  let mu := predict (_approximator self) state in
  let d := Z.to_nat (_discrete_action_dims self) in
  let action := map sigmoid (take d mu)
                ++ (if _squash_actions self then map tanh (drop d mu) else drop d mu) in
  length (_low self) = length mu ->
  length (_high self) = length mu ->
  Forall2 (fun l x => fle l x = true) (_low self) action ->
  Forall2 (fun x h => fle x h = true) action (_high self) ->
  draw_deterministic_action tanh sigmoid self state = Ret (action, None).
Proof.
  intros Hn Hd Hc Hlen mu d action Hlow Hhigh Hlo Hhi.
  rewrite (deterministic_unfolded self state Hn Hd Hc Hlen). cbv zeta.
  fold mu; fold d; fold action.
  rewrite torch_clip_within; [reflexivity| | |assumption|assumption].
  - rewrite <- (Forall2_length _ _ _ Hlo). reflexivity.
  - lia.
Qed.

(** X20. On a mean of [d + c] entries, [d > 0] discrete and [c >= 1]
    continuous, without normalisation, with a Cholesky factor [L] of [c]
    rows of [c] entries and a normal draw [eps] of [c] entries, the
    stochastic mode returns the clip of the sigmoid of the first [d] entries
    of the mean followed by [m + L eps], [m] being the last [c] entries,
    passed through tanh when squashing is on. *)
Theorem draw_action_closed self state u eps :
  _draw_random_act self = false ->
  _draw_deterministic self = false ->
  _normalize_states self = false ->
  (0 < _discrete_action_dims self)%Z ->
  (1 <= _continuous_action_dims self)%Z ->
  Z.of_nat (length (predict (_approximator self) state))
  = (_discrete_action_dims self + _continuous_action_dims self)%Z ->
  length (_chol_sigma self) = Z.to_nat (_continuous_action_dims self) ->
  Forall (fun row => length row = Z.to_nat (_continuous_action_dims self))
         (_chol_sigma self) ->
  length eps = Z.to_nat (_continuous_action_dims self) ->
  draw_action tanh sigmoid self state u eps
  = let mu := predict (_approximator self) state in
    let d := Z.to_nat (_discrete_action_dims self) in
    let m := if _squash_actions self then map tanh (drop d mu) else drop d mu in
    let* a :=
      torch_clip (map sigmoid (take d mu)
                  ++ zip_with fadd m (matvec (_chol_sigma self) eps))
        (_low self) (_high self) in
    Ret (a, None).
Proof.
  intros Hr Hdet Hn Hd Hc Hlen Hrows Hcols Heps. unfold draw_action.
  rewrite Hr, Hdet, Hn. simpl obind. rewrite squash_returns. simpl obind.
  destruct (squashed_parts self _ ltac:(lia) Hc Hlen) as [-> ->].
  set (m := if _squash_actions self then _ else _).
  assert (Hm : length m = Z.to_nat (_continuous_action_dims self)).
  { subst m. destruct (_squash_actions self);
      rewrite ?length_map, length_drop; lia. }
  unfold mvn_sample. rewrite decide_True.
  - simpl. destruct (Z.ltb_spec 0 (_discrete_action_dims self)); [reflexivity | lia].
  - rewrite Hm. auto.
Qed.

(** X21. [continuous_action_dims = 0], the constructor's default, does not
    mean no continuous component: the slice [mu[-0:]] is the whole mean.
    With normalisation off and [d = discrete_action_dims > 0], the
    deterministic action is the clip of the sigmoid of the first [d]
    entries followed by the entire mean, both taken after a tanh over the
    entire mean when squashing is on. *)
Theorem no_continuous_dims_takes_whole_mean self state :
  _normalize_states self = false ->
  (0 < _discrete_action_dims self)%Z ->
  _continuous_action_dims self = 0%Z ->
  draw_deterministic_action tanh sigmoid self state
  = let mu := predict (_approximator self) state in
    let mu := if _squash_actions self then map tanh mu else mu in
    let* a :=
      torch_clip (map sigmoid (slice_to (_discrete_action_dims self) mu) ++ mu)
        (_low self) (_high self) in
    Ret (a, None).
Proof.
  intros Hn Hd Hc. unfold draw_deterministic_action.
  rewrite Hn. simpl obind. rewrite squash_returns. simpl obind.
  unfold squashed. rewrite Hc. simpl.
  destruct (Z.ltb_spec 0 (_discrete_action_dims self)); [|lia].
  assert (Hall : forall v : @vec num, slice_from (- 0) v = v) by reflexivity.
  rewrite !Hall. destruct (_squash_actions self); reflexivity.
Qed.

(** X22. The random mode comes first and reads nothing but the bounds:
    with [draw_random_act] set, bounds of one length and a uniform draw [u]
    of that length, [draw_action] returns [u * (high - low) + low], entry by
    entry, whatever the state, the other flags, the dimensions and the
    normalisation statistics. *)
Theorem draw_action_random self state u eps :
  _draw_random_act self = true ->
  length (_high self) = length (_low self) ->
  length u = length (_low self) ->
  draw_action tanh sigmoid self state u eps
  = Ret (zip_with fadd (zip_with fmul u (zip_with fsub (_high self) (_low self)))
           (_low self), None).
Proof.
  intros Hr Hh Hu. unfold draw_action, draw_random_action. rewrite Hr.
  unfold broadcast2. rewrite decide_True by exact Hh. simpl.
  rewrite decide_True by (rewrite length_zip_with; lia). simpl.
  rewrite decide_True by (rewrite !length_zip_with; lia). reflexivity.
Qed.

(** X23. State normalisation is a preprocessing step and nothing else:
    with the mean and the standard deviation set, both of the length of the
    state, what [draw_deterministic_action] and, outside the random mode,
    [draw_action] do on a state is what they do without normalisation on
    [(state - mean) / std]. *)
Theorem normalization_is_preprocessing self state u eps mean std :
  _normalize_states self = true ->
  _states_mean self = Some mean ->
  _states_std self = Some std ->
  length mean = length state ->
  length std = length state ->
  let state' := zip_with fdiv (zip_with fsub state mean) std in
  draw_deterministic_action tanh sigmoid self state
  = draw_deterministic_action tanh sigmoid (without_normalization self) state'
  /\ (_draw_random_act self = false ->
        draw_action tanh sigmoid self state u eps
        = draw_action tanh sigmoid (without_normalization self) state' u eps).
Proof.
  intros Hn Hm Hs Hlm Hls state'.
  assert (Hnorm : (let* centred := broadcast2 fsub state mean in
                   broadcast2 fdiv centred std) = Ret state').
  { unfold broadcast2. rewrite decide_True by lia. simpl.
    rewrite decide_True by (rewrite length_zip_with; lia). reflexivity. }
  assert (Hdet : draw_deterministic_action tanh sigmoid self state
                 = draw_deterministic_action tanh sigmoid
                     (without_normalization self) state').
  { unfold draw_deterministic_action. rewrite Hn, Hm, Hs. simpl _normalize_states.
    cbv iota. rewrite Hnorm. reflexivity. }
  split; [exact Hdet|]. intros Hr.
  unfold draw_action. simpl _draw_random_act. simpl _draw_deterministic.
  rewrite Hr. destruct (_draw_deterministic self); [exact Hdet|].
  rewrite Hn, Hm, Hs. simpl _normalize_states. cbv iota. rewrite Hnorm. reflexivity.
Qed.

End Modes.
Section Bounds.
Context {num : Type} `{NumericLaws num}.
Variables tanh sigmoid : num -> num.
Implicit Types (self : @t num) (v w low high a : @vec num).

Lemma bget_lookup (l : @vec num) i x : l !! i = Some x -> bget l i = Some x.
Proof.
  destruct l as [|y [|z l]]; simpl; try tauto.
  destruct i; simpl; [tauto | discriminate].
Qed.

(** Each entry of a clipped tensor is [min(max(x, l), h)] for an entry [x]
    of the input and the entries [l], [h] of the bounds it meets. *)
Lemma torch_clip_entries v low high a i x :
  length low = length high ->
  torch_clip v low high = Ret a ->
  a !! i = Some x ->
  exists xv l h,
    bget low i = Some l /\ bget high i = Some h /\ x = fmin (fmax xv l) h.
Proof.
  intros Hlh Hclip Hi. unfold torch_clip, broadcast2 in Hclip.
  destruct (decide (length v = length low)) as [Hvl|Hvl]; simpl in Hclip.
  - rewrite decide_True in Hclip by (rewrite length_zip_with; lia).
    injection Hclip as <-.
    apply lookup_zip_with_Some in Hi. destruct Hi as (xw & h & -> & Hw & Hh).
    apply lookup_zip_with_Some in Hw. destruct Hw as (xv & l & -> & Hv & Hl).
    exists xv; exists l; exists h. auto using bget_lookup.
  - destruct v as [|xv [|xv' v']].
    + destruct low as [|l [|l' low']]; try discriminate; simpl in *; try lia.
      destruct high as [|h [|h' high']]; simpl in *; try lia.
      injection Hclip as <-. discriminate.
    + simpl in Hclip.
      rewrite decide_True in Hclip by (rewrite length_map; exact Hlh).
      injection Hclip as <-.
      apply lookup_zip_with_Some in Hi. destruct Hi as (xw & h & -> & Hw & Hh).
      change (map ?f low) with (f <$> low) in Hw. rewrite list_lookup_fmap in Hw.
      apply fmap_Some in Hw. destruct Hw as (l & Hl & ->).
      exists xv; exists l; exists h. auto using bget_lookup.
    + destruct low as [|l [|l' low']]; try discriminate.
      destruct high as [|h [|h' high']]; simpl in Hlh; try lia.
      simpl in Hclip. injection Hclip as <-.
      simpl in Hi. destruct i as [|[|i]]; simpl in Hi.
      * injection Hi as <-. exists xv; exists l; exists h. auto.
      * injection Hi as <-. exists xv'; exists l; exists h. auto.
      * change (map ?f (map ?g v')) with (f <$> (g <$> v')) in Hi.
        rewrite !list_lookup_fmap in Hi.
        apply fmap_Some in Hi. destruct Hi as (yw & Hi & ->).
        apply fmap_Some in Hi. destruct Hi as (y & Hi & ->).
        exists y; exists l; exists h. auto.
Qed.

Lemma bounds_ordered low high i l h :
  Forall2 (fun l h => fle l h = true) low high ->
  bget low i = Some l -> bget high i = Some h -> fle l h = true.
Proof.
  intros HF Hl Hh.
  destruct HF as [|l0 h0 low' high' Hle0 HF']; [discriminate|].
  destruct HF' as [|l1 h1 low'' high'' Hle1 HF''].
  - simpl in Hl, Hh. congruence.
  - change (bget (l0 :: l1 :: low'') i) with ((l0 :: l1 :: low'') !! i) in Hl.
    change (bget (h0 :: h1 :: high'') i) with ((h0 :: h1 :: high'') !! i) in Hh.
    assert (HF : Forall2 (fun l h => fle l h = true)
                         (l0 :: l1 :: low'') (h0 :: h1 :: high''))
      by (repeat constructor; assumption).
    exact (Forall2_lookup_lr _ _ _ _ _ _ HF Hl Hh).
Qed.

Lemma clamp_within (x l h : num) :
  fle l h = true ->
  fle l (fmin (fmax x l) h) = true /\ fle (fmin (fmax x l) h) h = true.
Proof.
  intros Hlh. split; [|apply fmin_le_r].
  destruct (fmin_cases (fmax x l) h) as [[-> _]|[-> _]]; [apply fmax_ge_r | exact Hlh].
Qed.


End Bounds.
End ClippedGaussianExtras.

(** ** The properties at work on concrete data *)

Module Instances.
Import Dataset DatasetFacts Examples.

(** The scenario of the documentation: returns [3; 5], scores
    (3, 5, 4, 2); no score before the first episode ends. *)
Example compute_J_two_episodes : compute_J two_episodes 1%Z = Ret [3%Z; 5%Z].
Proof. reflexivity. Qed.

Example compute_scores_two_episodes :
  compute_scores two_episodes = Ret (3%Z, 5%Z, 4%Z, 2).
Proof. reflexivity. Qed.

Example compute_scores_unfinished :
  compute_scores (take 2 two_episodes) = Ret (0%Z, 0%Z, 0%Z, 0).
Proof. reflexivity. Qed.

Lemma compute_scores_spec_witness :
  (forall k, fpow f1 k = Ret (f1 : Z))
  /\ (forall x : Z, fmul f1 x = x)
  /\ exists js,
       compute_J two_episodes f1 = Ret js
       /\ (js <> [] ->
             exists mn mx me,
               np_min js = Ret mn /\ np_max js = Ret mx /\ np_mean js = Ret me
               /\ compute_scores two_episodes = Ret (mn, mx, me, length js))
       /\ (js = [] -> compute_scores two_episodes = Ret (f0, f0, f0, 0))
       /\ (js = [] <-> Forall (fun tr => last tr = false) two_episodes).
Proof.
  assert (H1 : forall k, fpow f1 k = Ret (f1 : Z))
    by (intros k; simpl; f_equal; apply Z.pow_1_l; lia).
  assert (H2 : forall x : Z, fmul f1 x = x) by (intros x; apply Z.mul_1_l).
  split; [exact H1|]. split; [exact H2|].
  exact (compute_scores_spec H1 H2 two_episodes).
Defined.

Lemma select_episodes_spec_witness :
  (0 <= 1 <= Z.of_nat (length (List.filter last two_episodes)))%Z
  /\ exists k tr,
       two_episodes !! k = Some tr /\ last tr = true
       /\ length (List.filter last (take k two_episodes)) = Z.to_nat 1 - 1
       /\ select_episodes no_broadcast two_episodes 1 false
          = Ret (Sub (np_array (take (S k) two_episodes)))
       /\ take (S k) two_episodes = concat (take (Z.to_nat 1) (episodes two_episodes)).
Proof.
  assert (Hn : (0 <= 1 <= Z.of_nat (length (List.filter last two_episodes)))%Z)
    by (simpl; lia).
  split; [exact Hn|].
  apply (proj2 (select_episodes_spec no_broadcast two_episodes 1 Hn)). lia.
Defined.

Lemma select_samples_spec_witness :
  two_episodes <> []
  /\ (0 <= 2)%Z
  /\ length [4; 4] = Z.to_nat 2
  /\ Forall (fun i => i < length two_episodes) [4; 4]
  /\ exists a,
       select_samples no_broadcast two_episodes 2 false [4; 4] = Ret (Sub a)
       /\ n_rows a = Z.to_nat 2
       /\ Forall (fun row => In row (np_array two_episodes)) a
       /\ Forall2 (fun i row => row_of <$> two_episodes !! i = Some row) [4; 4] a.
Proof.
  assert (H1 : two_episodes <> []) by discriminate.
  assert (H2 : (0 <= 2)%Z) by lia.
  assert (H3 : length [4; 4] = Z.to_nat 2) by reflexivity.
  assert (H4 : Forall (fun i => i < length two_episodes) [4; 4])
    by (repeat constructor; simpl; lia).
  repeat (split; [assumption|]).
  apply (proj2 (select_samples_spec no_broadcast two_episodes 2 [4; 4] H1 H2 H3 H4)).
  lia.
Defined.

(** Asked for no sample, [select_samples] answers with an array of one
    row: not with [n_samples] rows. *)
Lemma select_samples_zero_counterexample :
  two_episodes <> []
  /\ (0 <= 0)%Z
  /\ ~ (exists a,
          select_samples no_broadcast two_episodes 0 false [] = Ret (Sub a)
          /\ n_rows a = Z.to_nat 0
          /\ Forall (fun row => In row (np_array two_episodes)) a).
Proof.
  split; [discriminate|]. split; [lia|].
  intros (a & Ha & Hrows & _). simpl in Ha. injection Ha as <-. discriminate.
Qed.

Lemma parse_dataset_roundtrip_witness :
  feq (f1 : Z) f0 = false
  /\ feq (f0 : Z) f0 = true
  /\ two_episodes !! 0 = Some (step 0 1 false)
  /\ Forall (same_shapes (step 0 1 false)) two_episodes
  /\ exists state_ action_ reward_ next_state_ absorbing_ last_,
       parse_dataset no_broadcast two_episodes
       = Ret (state_, action_, reward_, next_state_, absorbing_, last_)
       /\ length state_ = length two_episodes
       /\ length action_ = length two_episodes
       /\ length reward_ = length two_episodes
       /\ length next_state_ = length two_episodes
       /\ length absorbing_ = length two_episodes
       /\ length last_ = length two_episodes
       /\ forall i,
            reassemble (state_, action_, reward_, next_state_, absorbing_, last_) i
            = two_episodes !! i.
Proof.
  assert (H1 : two_episodes !! 0 = Some (step 0 1 false)) by reflexivity.
  assert (H2 : Forall (same_shapes (step 0 1 false)) two_episodes)
    by (repeat constructor).
  split; [reflexivity|]. split; [reflexivity|]. split; [exact H1|]. split; [exact H2|].
  exact (parse_dataset_roundtrip no_broadcast eq_refl eq_refl two_episodes _ H1 H2).
Defined.


(** One absorbing state with equal values: the draw decides. *)
Example max_QA_ties :
  map (max_QA [4%Z] [1%Z] flat_q) [0; 1; 2]
  = [Ret ([0%Z], [[0]]); Ret ([0%Z], [[1]]); Ret ([0%Z], [[2]])].
Proof. reflexivity. Qed.

Lemma returns_read_reward_and_last_only_witness :
  Forall2 (fun t1 t2 : @transition Z => reward t1 = reward t2 /\ last t1 = last t2)
          two_episodes two_episodes_elsewhere
  /\ (forall gamma, compute_J two_episodes gamma = compute_J two_episodes_elsewhere gamma)
  /\ compute_scores two_episodes = compute_scores two_episodes_elsewhere.
Proof.
  assert (HF : Forall2 (fun t1 t2 : @transition Z =>
                          reward t1 = reward t2 /\ last t1 = last t2)
                       two_episodes two_episodes_elsewhere)
    by (repeat constructor).
  split; [exact HF|].
  exact (returns_read_reward_and_last_only two_episodes two_episodes_elsewhere HF).
Defined.

(** Two calls of the Ornstein-Uhlenbeck policy, the second fed the state of
    the first. *)
Example ou_two_calls :
  OrnsteinUhlenbeckPolicy.rollout Z.sqrt ou 1%Z [(5%Z, 1%Z); (6%Z, (-1)%Z)]
  = [(9%Z, (-1)%Z); (13%Z, 1%Z)].
Proof. reflexivity. Qed.

Import ClippedGaussianPolicy ClippedGaussianFacts.

Lemma draw_action_without_discrete_witness :
  _draw_random_act (gaussian 0 false None None) = false
  /\ _draw_deterministic (gaussian 0 false None None) = false
  /\ _normalize_states (gaussian 0 false None None) = false
  /\ _discrete_action_dims (gaussian 0 false None None) = 0%Z
  /\ (1 <= _continuous_action_dims (gaussian 0 false None None))%Z
  /\ (forall r, draw_action id id (gaussian 0 false None None) [7%Z] [] [1%Z] <> Ret r)
  /\ draw_action id id (gaussian 0 false None None) [7%Z] [] [1%Z]
     = Raise UnboundLocalError.
Proof.
  repeat (split; [reflexivity || (simpl; lia)|]).
  destruct (draw_action_without_discrete id id (gaussian 0 false None None)
              [7%Z] [] [1%Z] eq_refl eq_refl eq_refl eq_refl ltac:(simpl; lia))
    as [Hnever Hraise].
  split; [exact Hnever|]. apply Hraise. exists [8%Z]. reflexivity.
Defined.

(** With discrete components the same policy returns the clipped action. *)
Example draw_action_one_discrete :
  draw_action id id (gaussian 1 false None None) [2%Z; 7%Z] [] [1%Z]
  = Ret ([2%Z; 5%Z], None).
Proof. reflexivity. Qed.

Lemma normalization_without_mean_witness :
  _normalize_states (gaussian 1 true None None) = true
  /\ _states_mean (gaussian 1 true None None) = None
  /\ (_draw_random_act (gaussian 1 true None None) = false ->
        draw_action id id (gaussian 1 true None None) [2%Z; 7%Z] [] [1%Z]
        = Raise ValueError)
  /\ draw_deterministic_action id id (gaussian 1 true None None) [2%Z; 7%Z]
     = Raise ValueError.
Proof.
  split; [reflexivity|]. split; [reflexivity|].
  exact (normalization_without_mean id id (gaussian 1 true None None)
           [2%Z; 7%Z] [] [1%Z] eq_refl eq_refl).
Defined.

(** The mean is set and the standard deviation is not: both drawing methods
    fail, with a TypeError and not with the error that reports the missing
    configuration. *)
Lemma normalization_without_std_counterexample :
  _normalize_states (gaussian 1 true (Some [0%Z; 0%Z]) None) = true
  /\ _states_std (gaussian 1 true (Some [0%Z; 0%Z]) None) = None
  /\ draw_action id id (gaussian 1 true (Some [0%Z; 0%Z]) None) [2%Z; 7%Z] [] [1%Z]
     = Raise TypeError
  /\ draw_action id id (gaussian 1 true (Some [0%Z; 0%Z]) None) [2%Z; 7%Z] [] [1%Z]
     <> Raise ValueError
  /\ draw_deterministic_action id id (gaussian 1 true (Some [0%Z; 0%Z]) None) [2%Z; 7%Z]
     = Raise TypeError
  /\ draw_deterministic_action id id (gaussian 1 true (Some [0%Z; 0%Z]) None) [2%Z; 7%Z]
     <> Raise ValueError.
Proof. repeat split; (reflexivity || discriminate). Qed.

(** *** Over the binary64 floats *)

Import PrimFloat.

(** The same loop over the floats, with a discount of one half: 1 + 1/2 +
    1/4; the steps after the last completed episode add no value. *)
Example compute_J_three_steps :
  compute_J three_steps 0.5%float = Ret [1.75%float]
  /\ compute_J one_step_and_tail 0.5%float = Ret [1%float].
Proof. split; reflexivity. Qed.

(** A discount whose powers leave the range of the floats: [huge ** 2]
    raises, in a completed episode and in the unfinished tail alike, and
    [compute_J] returns nothing, where one value was due for the one
    completed episode. *)
Lemma compute_J_overflow_counterexample :
  episodes three_steps = [three_steps]
  /\ fpow huge 2 = Raise OverflowError
  /\ compute_J three_steps huge = Raise OverflowError
  /\ episodes one_step_and_tail = [[fstep PrimFloat.one true]]
  /\ compute_J one_step_and_tail huge = Raise OverflowError.
Proof. repeat split; reflexivity. Qed.

(** A discount of 2: an episode of 1024 steps has its return, the 1025th
    step asks for [2. ** 1024] and raises. *)
Example compute_J_doubling :
  compute_J (long_episode 1023) 2%float = Ret [0%float]
  /\ compute_J (long_episode 1024) 2%float = Raise OverflowError.
Proof. split; vm_compute; reflexivity. Qed.


(** NaN is the largest entry for numpy, and [np.argmax] stops at it. *)
Example np_max_nan :
  np_max [1%float; PrimFloat.nan; 2%float] = Ret PrimFloat.nan
  /\ np_min [1%float; PrimFloat.nan; 0%float] = Ret PrimFloat.nan
  /\ np_argmax [1%float; PrimFloat.nan; 3%float] = Ret 1
  /\ np_argmax [1%float; 3%float; 3%float; 2%float] = Ret 1.
Proof. repeat split. Qed.

End Instances.

(** ** The further properties at work on concrete data *)

Module ExtraInstances.
Import Dataset DatasetFacts DatasetExtras Examples.

Lemma compute_J_grows_witness :
  compute_J (take 4 two_episodes ++ drop 4 two_episodes) 2%Z = Ret [7%Z; 8%Z]
  /\ exists js new_js,
       compute_J (take 4 two_episodes) 2%Z = Ret js
       /\ [7%Z; 8%Z] = js ++ new_js
       /\ length new_js = length (List.filter last (drop 4 two_episodes)).
Proof.
  assert (H1 : compute_J (take 4 two_episodes ++ drop 4 two_episodes) 2%Z
               = Ret [7%Z; 8%Z]) by reflexivity.
  split; [exact H1|].
  exact (compute_J_grows (take 4 two_episodes) (drop 4 two_episodes) 2%Z _ H1).
Defined.

Lemma compute_J_app_at_boundary_witness :
  last (step 2 1 true) = true
  /\ compute_J (([step 0 1 false; step 1 1 false] ++ [step 2 1 true])
                ++ [step 0 2 false; step 1 3 true]) 2%Z
     = let* a := compute_J ([step 0 1 false; step 1 1 false] ++ [step 2 1 true]) 2%Z in
       let* b := compute_J [step 0 2 false; step 1 3 true] 2%Z in
       Ret (a ++ b).
Proof.
  split; [reflexivity|].
  exact (compute_J_app_at_boundary [step 0 1 false; step 1 1 false] (step 2 1 true)
           [step 0 2 false; step 1 3 true] 2%Z eq_refl).
Defined.

Lemma compute_scores_ignores_unfinished_witness :
  Forall (fun tr => last tr = false) [step 0 2 false; step 1 2 false]
  /\ compute_scores (two_episodes ++ [step 0 2 false; step 1 2 false])
     = compute_scores two_episodes.
Proof.
  assert (HF : Forall (fun tr : @transition Z => last tr = false)
                      [step 0 2 false; step 1 2 false]) by (repeat constructor).
  split; [exact HF|].
  exact (compute_scores_ignores_unfinished two_episodes _ HF).
Defined.

Lemma select_episodes_out_of_range_witness :
  ~ (0 <= 3 <= Z.of_nat (length (List.filter last two_episodes)))%Z
  /\ select_episodes no_broadcast two_episodes 3 true = Raise IndexError.
Proof.
  assert (Hn : ~ (0 <= 3 <= Z.of_nat (length (List.filter last two_episodes)))%Z)
    by (simpl; lia).
  split; [exact Hn|].
  exact (select_episodes_out_of_range no_broadcast two_episodes 3 true Hn).
Defined.

Lemma select_episodes_parsed_witness :
  (0 <= 1 <= Z.of_nat (length (List.filter last two_episodes)))%Z
  /\ two_episodes !! 0 = Some (step 0 1 false)
  /\ Forall (same_shapes (step 0 1 false)) two_episodes
  /\ select_episodes no_broadcast two_episodes 1 true
     = Ret (Parsed (columns (concat (take (Z.to_nat 1) (episodes two_episodes))))).
Proof.
  assert (H1 : (0 <= 1 <= Z.of_nat (length (List.filter last two_episodes)))%Z)
    by (simpl; lia).
  assert (H2 : two_episodes !! 0 = Some (step 0 1 false)) by reflexivity.
  assert (H3 : Forall (same_shapes (step 0 1 false)) two_episodes)
    by (repeat constructor).
  repeat (split; [assumption|]).
  exact (select_episodes_parsed no_broadcast two_episodes _ 1 H1 H2 H3).
Defined.

Lemma select_episodes_nested_witness :
  (1 <= 1 <= 2)%Z
  /\ (2 <= Z.of_nat (length (List.filter last two_episodes)))%Z
  /\ exists a_n a_m,
       select_episodes no_broadcast two_episodes 1 false = Ret (Sub a_n)
       /\ select_episodes no_broadcast two_episodes 2 false = Ret (Sub a_m)
       /\ a_n `prefix_of` a_m.
Proof.
  assert (H1 : (1 <= 1 <= 2)%Z) by lia.
  assert (H2 : (2 <= Z.of_nat (length (List.filter last two_episodes)))%Z)
    by (simpl; lia).
  repeat (split; [assumption|]).
  exact (select_episodes_nested no_broadcast two_episodes 1 2 H1 H2).
Defined.

Lemma select_episodes_all_witness :
  1 <= length (List.filter last (two_episodes ++ [step 0 2 false]))
  /\ exists sub,
       select_episodes no_broadcast (two_episodes ++ [step 0 2 false])
         (Z.of_nat (length (List.filter last (two_episodes ++ [step 0 2 false])))) false
       = Ret (Sub (np_array sub))
       /\ sub ++ trailing (two_episodes ++ [step 0 2 false])
          = two_episodes ++ [step 0 2 false].
Proof.
  assert (H1 : 1 <= length (List.filter last (two_episodes ++ [step 0 2 false])))
    by (simpl; lia).
  split; [exact H1|].
  exact (select_episodes_all no_broadcast (two_episodes ++ [step 0 2 false]) H1).
Defined.

Lemma compute_J_of_selected_witness :
  (1 <= 1 <= Z.of_nat (length (List.filter last two_episodes)))%Z
  /\ exists sub,
       select_episodes no_broadcast two_episodes 1 false = Ret (Sub (np_array sub))
       /\ (forall js, compute_J two_episodes 2%Z = Ret js ->
             compute_J sub 2%Z = Ret (take (Z.to_nat 1) js))
       /\ (forall e, compute_J sub 2%Z = Raise e ->
             compute_J two_episodes 2%Z = Raise e).
Proof.
  assert (H1 : (1 <= 1 <= Z.of_nat (length (List.filter last two_episodes)))%Z)
    by (simpl; lia).
  split; [exact H1|].
  exact (compute_J_of_selected no_broadcast two_episodes 1 2%Z H1).
Defined.

Lemma select_samples_parsed_witness :
  (1 <= 2)%Z
  /\ length [4; 0] = Z.to_nat 2
  /\ Forall (fun i => i < length two_episodes) [4; 0]
  /\ two_episodes !! 0 = Some (step 0 1 false)
  /\ Forall (same_shapes (step 0 1 false)) two_episodes
  /\ exists sub,
       Forall2 (fun i tr => two_episodes !! i = Some tr) [4; 0] sub
       /\ select_samples no_broadcast two_episodes 2 true [4; 0]
          = Ret (Parsed (columns sub)).
Proof.
  assert (H1 : (1 <= 2)%Z) by lia.
  assert (H2 : length [4; 0] = Z.to_nat 2) by reflexivity.
  assert (H3 : Forall (fun i => i < length two_episodes) [4; 0])
    by (repeat constructor; simpl; lia).
  assert (H4 : two_episodes !! 0 = Some (step 0 1 false)) by reflexivity.
  assert (H5 : Forall (same_shapes (step 0 1 false)) two_episodes)
    by (repeat constructor).
  repeat (split; [assumption|]).
  exact (select_samples_parsed no_broadcast two_episodes _ 2 [4; 0] H1 H2 H3 H4 H5).
Defined.


Lemma max_QA_empty_batch_raises_witness :
  predict_all flat_q [] = []
  /\ forall r, max_QA [] [1%Z] flat_q 0 <> Ret r.
Proof.
  split; [reflexivity|].
  exact (max_QA_empty_batch_raises [] [1%Z] flat_q 0 eq_refl).
Defined.

Lemma max_QA_batch_ignores_draw_witness :
  1 < length (predict_all flat_q [0%Z; 3%Z])
  /\ max_QA [0%Z; 3%Z] [1%Z; 0%Z] flat_q 0 = max_QA [0%Z; 3%Z] [1%Z; 0%Z] flat_q 7.
Proof.
  assert (H1 : 1 < length (predict_all flat_q [0%Z; 3%Z])) by (simpl; lia).
  split; [exact H1|].
  exact (max_QA_batch_ignores_draw [0%Z; 3%Z] [1%Z; 0%Z] flat_q 0 7 H1).
Defined.


Import ClippedGaussianPolicy ClippedGaussianFacts ClippedGaussianExtras.

Lemma policy_state_is_None_witness :
  (draw_action id id (gaussian 1 false None None) [2%Z; 7%Z] [] [1%Z]
   = Ret ([2%Z; 5%Z], None)
   \/ draw_deterministic_action id id (gaussian 1 false None None) [2%Z; 7%Z]
      = Ret ([2%Z; 5%Z], None)
   \/ draw_random_action (gaussian 1 false None None) [] = Ret ([2%Z; 5%Z], None))
  /\ @None (list Z) = None.
Proof.
  assert (H1 : draw_action id id (gaussian 1 false None None) [2%Z; 7%Z] [] [1%Z]
               = Ret ([2%Z; 5%Z], None)) by reflexivity.
  split; [left; exact H1|].
  exact (policy_state_is_None id id (gaussian 1 false None None) [2%Z; 7%Z] [] [1%Z]
           [2%Z; 5%Z] None (or_introl H1)).
Defined.

Lemma no_action_without_discrete_witness :
  (_discrete_action_dims (mixed false true true (-1) 1 [(-5)%Z] [5%Z]) <= 0)%Z
  /\ (forall r, draw_deterministic_action id id
                  (mixed false true true (-1) 1 [(-5)%Z] [5%Z]) [7%Z] <> Ret r)
  /\ (_draw_random_act (mixed false true true (-1) 1 [(-5)%Z] [5%Z]) = false ->
        forall r, draw_action id id (mixed false true true (-1) 1 [(-5)%Z] [5%Z])
                    [7%Z] [] [1%Z] <> Ret r)
  /\ (_normalize_states (mixed false true true (-1) 1 [(-5)%Z] [5%Z]) = false ->
        draw_deterministic_action id id (mixed false true true (-1) 1 [(-5)%Z] [5%Z]) [7%Z]
        = Raise UnboundLocalError).
Proof.
  assert (H1 : (_discrete_action_dims (mixed false true true (-1) 1 [(-5)%Z] [5%Z])
                <= 0)%Z) by (simpl; lia).
  split; [exact H1|].
  exact (no_action_without_discrete id id (mixed false true true (-1) 1 [(-5)%Z] [5%Z])
           [7%Z] [] [1%Z] H1).
Defined.

Lemma draw_deterministic_action_closed_witness :
  _normalize_states (mixed false true true 1 1 [(-5)%Z] [5%Z]) = false
  /\ (0 < _discrete_action_dims (mixed false true true 1 1 [(-5)%Z] [5%Z]))%Z
  /\ (1 <= _continuous_action_dims (mixed false true true 1 1 [(-5)%Z] [5%Z]))%Z
  /\ Z.of_nat (length [2%Z; 7%Z]) = (1 + 1)%Z
  /\ draw_deterministic_action Z.opp Z.succ (mixed false true true 1 1 [(-5)%Z] [5%Z])
       [2%Z; 7%Z]
     = Ret ([3%Z; (-5)%Z], None).
Proof.
  repeat (split; [reflexivity || (simpl; lia)|]).
  exact (draw_deterministic_action_closed Z.opp Z.succ
           (mixed false true true 1 1 [(-5)%Z] [5%Z]) [2%Z; 7%Z]
           eq_refl eq_refl ltac:(simpl; lia) eq_refl).
Defined.

Lemma draw_action_closed_witness :
  _draw_random_act (mixed false false true 1 1 [(-5)%Z] [5%Z]) = false
  /\ _draw_deterministic (mixed false false true 1 1 [(-5)%Z] [5%Z]) = false
  /\ _normalize_states (mixed false false true 1 1 [(-5)%Z] [5%Z]) = false
  /\ (0 < _discrete_action_dims (mixed false false true 1 1 [(-5)%Z] [5%Z]))%Z
  /\ (1 <= _continuous_action_dims (mixed false false true 1 1 [(-5)%Z] [5%Z]))%Z
  /\ Z.of_nat (length [2%Z; 3%Z]) = (1 + 1)%Z
  /\ length (_chol_sigma (mixed false false true 1 1 [(-5)%Z] [5%Z])) = Z.to_nat 1
  /\ Forall (fun row => length row = Z.to_nat 1)
            (_chol_sigma (mixed false false true 1 1 [(-5)%Z] [5%Z]))
  /\ length [1%Z] = Z.to_nat 1
  /\ draw_action Z.opp Z.succ (mixed false false true 1 1 [(-5)%Z] [5%Z])
       [2%Z; 3%Z] [] [1%Z]
     = Ret ([3%Z; (-2)%Z], None).
Proof.
  assert (HF : Forall (fun row : list Z => length row = Z.to_nat 1)
                      (_chol_sigma (mixed false false true 1 1 [(-5)%Z] [5%Z])))
    by (repeat constructor).
  repeat (split; [reflexivity || assumption || (simpl; lia)|]).
  exact (draw_action_closed Z.opp Z.succ (mixed false false true 1 1 [(-5)%Z] [5%Z])
           [2%Z; 3%Z] [] [1%Z] eq_refl eq_refl eq_refl eq_refl ltac:(simpl; lia)
           eq_refl eq_refl HF eq_refl).
Defined.

Lemma no_continuous_dims_takes_whole_mean_witness :
  _normalize_states (mixed false true false 1 0 [(-5)%Z] [5%Z]) = false
  /\ (0 < _discrete_action_dims (mixed false true false 1 0 [(-5)%Z] [5%Z]))%Z
  /\ _continuous_action_dims (mixed false true false 1 0 [(-5)%Z] [5%Z]) = 0%Z
  /\ draw_deterministic_action Z.opp Z.succ (mixed false true false 1 0 [(-5)%Z] [5%Z])
       [2%Z; 7%Z]
     = Ret ([3%Z; 2%Z; 5%Z], None).
Proof.
  repeat (split; [reflexivity|]).
  exact (no_continuous_dims_takes_whole_mean Z.opp Z.succ
           (mixed false true false 1 0 [(-5)%Z] [5%Z]) [2%Z; 7%Z]
           eq_refl eq_refl eq_refl).
Defined.

Lemma draw_action_random_witness :
  _draw_random_act (mixed true true true 0 0 [(-5)%Z; 0%Z] [5%Z; 4%Z]) = true
  /\ length (_high (mixed true true true 0 0 [(-5)%Z; 0%Z] [5%Z; 4%Z]))
     = length (_low (mixed true true true 0 0 [(-5)%Z; 0%Z] [5%Z; 4%Z]))
  /\ length [0%Z; 1%Z] = length (_low (mixed true true true 0 0 [(-5)%Z; 0%Z] [5%Z; 4%Z]))
  /\ draw_action Z.opp Z.succ (mixed true true true 0 0 [(-5)%Z; 0%Z] [5%Z; 4%Z])
       [9%Z] [0%Z; 1%Z] []
     = Ret ([(-5)%Z; 4%Z], None).
Proof.
  repeat (split; [reflexivity|]).
  exact (draw_action_random Z.opp Z.succ
           (mixed true true true 0 0 [(-5)%Z; 0%Z] [5%Z; 4%Z]) [9%Z] [0%Z; 1%Z] []
           eq_refl eq_refl eq_refl).
Defined.


Lemma deterministic_action_within_bounds_witness :
  _normalize_states (mixed false true true 1 1 [0%Z; (-5)%Z] [5%Z; 5%Z]) = false
  /\ (0 < _discrete_action_dims (mixed false true true 1 1 [0%Z; (-5)%Z] [5%Z; 5%Z]))%Z
  /\ (1 <= _continuous_action_dims (mixed false true true 1 1 [0%Z; (-5)%Z] [5%Z; 5%Z]))%Z
  /\ Z.of_nat (length [2%Z; 3%Z]) = (1 + 1)%Z
  /\ length (_low (mixed false true true 1 1 [0%Z; (-5)%Z] [5%Z; 5%Z])) = length [2%Z; 3%Z]
  /\ length (_high (mixed false true true 1 1 [0%Z; (-5)%Z] [5%Z; 5%Z])) = length [2%Z; 3%Z]
  /\ Forall2 (fun l x => fle l x = true) [0%Z; (-5)%Z] [3%Z; (-3)%Z]
  /\ Forall2 (fun x h => fle x h = true) [3%Z; (-3)%Z] [5%Z; 5%Z]
  /\ draw_deterministic_action Z.opp Z.succ
       (mixed false true true 1 1 [0%Z; (-5)%Z] [5%Z; 5%Z]) [2%Z; 3%Z]
     = Ret ([3%Z; (-3)%Z], None).
Proof.
  assert (H1 : Forall2 (fun l x : Z => fle l x = true) [0%Z; (-5)%Z] [3%Z; (-3)%Z])
    by (repeat constructor).
  assert (H2 : Forall2 (fun x h : Z => fle x h = true) [3%Z; (-3)%Z] [5%Z; 5%Z])
    by (repeat constructor).
  repeat (split; [reflexivity || assumption || (simpl; lia)|]).
  exact (deterministic_action_within_bounds Z.opp Z.succ
           (mixed false true true 1 1 [0%Z; (-5)%Z] [5%Z; 5%Z]) [2%Z; 3%Z]
           eq_refl eq_refl ltac:(simpl; lia) eq_refl eq_refl eq_refl H1 H2).
Defined.

Lemma normalization_is_preprocessing_witness :
  _normalize_states (gaussian 1 true (Some [1%Z; 1%Z]) (Some [1%Z; 2%Z])) = true
  /\ _states_mean (gaussian 1 true (Some [1%Z; 1%Z]) (Some [1%Z; 2%Z])) = Some [1%Z; 1%Z]
  /\ _states_std (gaussian 1 true (Some [1%Z; 1%Z]) (Some [1%Z; 2%Z])) = Some [1%Z; 2%Z]
  /\ length [1%Z; 1%Z] = length [2%Z; 7%Z]
  /\ length [1%Z; 2%Z] = length [2%Z; 7%Z]
  /\ draw_deterministic_action Z.opp Z.succ
       (gaussian 1 true (Some [1%Z; 1%Z]) (Some [1%Z; 2%Z])) [2%Z; 7%Z]
     = draw_deterministic_action Z.opp Z.succ
         (without_normalization (gaussian 1 true (Some [1%Z; 1%Z]) (Some [1%Z; 2%Z])))
         [1%Z; 3%Z]
  /\ (_draw_random_act (gaussian 1 true (Some [1%Z; 1%Z]) (Some [1%Z; 2%Z])) = false ->
        draw_action Z.opp Z.succ
          (gaussian 1 true (Some [1%Z; 1%Z]) (Some [1%Z; 2%Z])) [2%Z; 7%Z] [] [1%Z]
        = draw_action Z.opp Z.succ
            (without_normalization (gaussian 1 true (Some [1%Z; 1%Z]) (Some [1%Z; 2%Z])))
            [1%Z; 3%Z] [] [1%Z]).
Proof.
  do 5 (split; [reflexivity|]).
  exact (normalization_is_preprocessing Z.opp Z.succ
           (gaussian 1 true (Some [1%Z; 1%Z]) (Some [1%Z; 2%Z])) [2%Z; 7%Z] [] [1%Z]
           [1%Z; 1%Z] [1%Z; 2%Z] eq_refl eq_refl eq_refl eq_refl eq_refl).
Defined.

Lemma parse_dataset_scalar_columns_witness :
  parse_dataset stretch ragged
  = Ret ([ {| shape := [2]; data := [1%Z; 2%Z] |}; {| shape := [2]; data := [5%Z; 5%Z] |} ],
         [scalar 0; scalar 0], [4%Z; 6%Z], [scalar 1; scalar 2],
         [0%Z; 1%Z], [0%Z; 1%Z])
  /\ ragged <> []
  /\ length [ {| shape := [2]; data := [1%Z; 2%Z] |};
              {| shape := [2]; data := [5%Z; 5%Z] |} ] = length ragged
  /\ length [scalar 0; scalar 0] = length ragged
  /\ length [scalar 1; scalar 2] = length ragged
  /\ [4%Z; 6%Z] = map reward ragged
  /\ [0%Z; 1%Z] = map (fun tr => of_bool (absorbing tr)) ragged
  /\ [0%Z; 1%Z] = map (fun tr => of_bool (last tr)) ragged.
Proof.
  assert (H1 : parse_dataset stretch ragged
               = Ret ([ {| shape := [2]; data := [1%Z; 2%Z] |};
                        {| shape := [2]; data := [5%Z; 5%Z] |} ],
                      [scalar 0; scalar 0], [4%Z; 6%Z], [scalar 1; scalar 2],
                      [0%Z; 1%Z], [0%Z; 1%Z])) by reflexivity.
  split; [exact H1|].
  exact (parse_dataset_scalar_columns stretch ragged _ _ _ _ _ _ H1).
Defined.

End ExtraInstances.
